(** * calcwts.py: term weights (tf-idf) of a corpus of token-count files

    A shallow embedding of [src/calcwts.py] and the properties of its
    loader, document-frequency pass, tf-idf computation and export.

    Modelling conventions.
    - Python [int] is [Z]; Python [float] is idealised as a real number [R].
      The operations that raise in Python raise here: [/] on a zero divisor
      ([ZeroDivisionError]) and [math.log] outside its domain ([ValueError]).
      What binary64 adds is not modelled: a quotient or a sum is not rounded
      (a tiny quotient is not flushed to [0.0], [1 + q] is not rounded to
      [1.0]), and [int / int] does not raise [OverflowError] on a quotient
      beyond the range of a float.  A value of the model is the exact value
      of the formula that the program evaluates in binary64.
    - Python [str] is [string]; a character is a code point below 256.
    - A [dict] (and a [Counter]) is an association list in insertion order;
      assignment to a present key keeps its position, assignment to an absent
      key appends.  A list that is a dict has pairwise distinct keys.
    - An exception is an explicit [Raise] result threaded through a small
      error monad. *)

From Stdlib Require Import ZArith List String Ascii Bool Arith Lia.
From Stdlib Require Import Reals Lra Psatz.
From Stdlib Require Import Sorted Permutation.
Import ListNotations.

Set Implicit Arguments.

(** ** Exceptions and results *)

Module Py.

Inductive exn : Type :=
| ZeroDivisionError
| ValueError
| KeyError.

Inductive result (A : Type) : Type :=
| Ok (a : A)
| Raise (e : exn).

Arguments Ok {A} a.
Arguments Raise {A} e.

Definition bind {A B} (m : result A) (k : A -> result B) : result B :=
  match m with
  | Ok a => k a
  | Raise e => Raise e
  end.

(** A [for] loop whose body may raise: the first exception ends the loop. *)
Fixpoint for_each {S X} (body : S -> X -> result S) (xs : list X) (s : S)
  : result S :=
  match xs with
  | [] => Ok s
  | x :: rest => bind (body s x) (for_each body rest)
  end.

End Py.

Import Py.

Declare Scope py_scope.
Delimit Scope py_scope with py.
Notation "x <- m ;; k" := (Py.bind m (fun x => k))
  (at level 61, m at next level, right associativity) : py_scope.
Notation "' p <- m ;; k" := (Py.bind m (fun x => let p := x in k))
  (at level 61, p pattern, m at next level, right associativity) : py_scope.
Open Scope py_scope.
Open Scope string_scope.
Open Scope Z_scope.

(** ** Dictionaries and counters *)

Module Dict.

Definition dict (V : Type) : Type := list (string * V).

Definition keys {V} (d : dict V) : list string := map fst d.
Definition values {V} (d : dict V) : list V := map snd d.

Fixpoint get {V} (d : dict V) (k : string) : option V :=
  match d with
  | [] => None
  | (k', v) :: rest => if String.eqb k' k then Some v else get rest k
  end.

(** [d[k] = v] *)
Fixpoint set {V} (d : dict V) (k : string) (v : V) : dict V :=
  match d with
  | [] => [(k, v)]
  | (k', v') :: rest =>
      if String.eqb k' k then (k', v) :: rest else (k', v') :: set rest k v
  end.

(** [d[k]], which raises [KeyError] on an absent key. *)
Definition item {V} (d : dict V) (k : string) : result V :=
  match get d k with
  | Some v => Ok v
  | None => Raise KeyError
  end.

(** [k in d] *)
Definition mem {V} (d : dict V) (k : string) : bool :=
  match get d k with Some _ => true | None => false end.

(** The representation invariant of a dict. *)
Definition wf {V} (d : dict V) : Prop := NoDup (keys d).

(** [Counter.__getitem__]: an absent key reads as 0 and is not inserted. *)
Definition counter_get (c : dict Z) (k : string) : Z :=
  match get c k with
  | Some n => n
  | None => 0
  end.

(** [c[k] += n] on a [Counter]. *)
Definition counter_add (c : dict Z) (k : string) (n : Z) : dict Z :=
  set c k (counter_get c k + n).

(** [{key(x): f(x) for x in xs}] where [f] may raise. *)
Definition comprehension {X V} (f : X -> result (string * V)) (xs : list X)
  : result (dict V) :=
  for_each (fun d x => '(k, v) <- f x ;; Ok (set d k v)) xs [].

End Dict.

Import Dict.

(** ** Strings: [str.strip], [str.split], [str.endswith], [int] *)

Module Str.

Definition code (c : ascii) : nat := nat_of_ascii c.

(** [str.isspace] on one character (code points below 256). *)
Definition is_space (c : ascii) : bool :=
  let n := code c in
  ((9 <=? n) && (n <=? 13) || (28 <=? n) && (n <=? 32)
   || (n =? 133) || (n =? 160))%nat.

Fixpoint lstrip (s : string) : string :=
  match s with
  | EmptyString => EmptyString
  | String c rest => if is_space c then lstrip rest else s
  end.

Fixpoint rstrip (s : string) : string :=
  match s with
  | EmptyString => EmptyString
  | String c rest =>
      match rstrip rest with
      | EmptyString => if is_space c then EmptyString else String c EmptyString
      | kept => String c kept
      end
  end.

Definition strip (s : string) : string := rstrip (lstrip s).

(** [s.split(sep)] for a one-character separator: one more part than there
    are separators, never an empty list. *)
Fixpoint split (sep : ascii) (s : string) : list string :=
  match s with
  | EmptyString => [EmptyString]
  | String c rest =>
      if Ascii.eqb c sep then EmptyString :: split sep rest
      else match split sep rest with
           | part :: parts => String c part :: parts
           | [] => [String c EmptyString]
           end
  end.

Fixpoint rev_string (s : string) : string :=
  match s with
  | EmptyString => EmptyString
  | String c rest => rev_string rest ++ String c EmptyString
  end.

Definition endswith (s suffix : string) : bool :=
  String.prefix (rev_string suffix) (rev_string s).

(** *** [int(s)] in base 10 *)

Definition is_digit (c : ascii) : bool :=
  let n := code c in ((48 <=? n) && (n <=? 57))%nat.

Definition digit_value (c : ascii) : Z := Z.of_nat (code c) - 48.

(** The whitespace [int] skips around the literal. *)
Definition is_c_space (c : ascii) : bool :=
  let n := code c in ((9 <=? n) && (n <=? 13) || (n =? 32))%nat.

(** Before parsing, a non-ASCII whitespace character becomes a blank and any
    other non-ASCII character becomes a question mark (no code point in
    128..255 is a decimal digit). *)
Definition to_ascii_char (c : ascii) : ascii :=
  if (code c <? 127)%nat then c
  else if is_space c then " "%char else "?"%char.

Fixpoint to_ascii (s : string) : string :=
  match s with
  | EmptyString => EmptyString
  | String c rest => String (to_ascii_char c) (to_ascii rest)
  end.

Fixpoint skip_c_space (s : string) : string :=
  match s with
  | EmptyString => EmptyString
  | String c rest => if is_c_space c then skip_c_space rest else s
  end.

(** The digit scan: decimal digits, with single underscores allowed between
    two digits.  [prev_underscore] tells whether the previous character was
    an underscore, [ndigits] counts the digits read.  Returns the value and
    the unread rest, or [None] on a doubled or trailing underscore or when
    no digit was read. *)
Fixpoint scan_digits (s : string) (prev_underscore : bool) (acc : Z)
         (ndigits : nat) : option (Z * string) :=
  let finish :=
    if prev_underscore then None
    else match ndigits with O => None | S _ => Some (acc, s) end in
  match s with
  | EmptyString => finish
  | String c rest =>
      if is_digit c then
        scan_digits rest false (10 * acc + digit_value c) (S ndigits)
      else if Ascii.eqb c "_"%char then
        if prev_underscore then None
        else scan_digits rest true acc ndigits
      else finish
  end.

(** [int(s)]: optional surrounding whitespace, an optional sign, then the
    digits; anything else raises [ValueError].  (The interpreter's limit on
    the number of digits of a literal is not modelled.) *)
Definition int (s : string) : result Z :=
  let s1 := skip_c_space (to_ascii s) in
  let '(negative, s2) :=
    match s1 with
    | String "+"%char rest => (false, rest)
    | String "-"%char rest => (true, rest)
    | _ => (false, s1)
    end in
  match s2 with
  | String "_"%char _ => Raise ValueError
  | _ =>
      match scan_digits s2 false 0 0 with
      | None => Raise ValueError
      | Some (v, rest) =>
          match skip_c_space rest with
          | EmptyString => Ok (if negative then - v else v)
          | String _ _ => Raise ValueError
          end
      end
  end.

End Str.

(** ** The loader: [load_stoplist] and [process_text_files] *)

(** A text file is the list of its lines as iteration over the file yields
    them (each with its line terminator); a folder lists its files by name. *)
Definition text_file : Type := list string.
Definition folder : Type := list (string * text_file).

(** [s.split()]: the maximal runs of non-whitespace characters. *)
Fixpoint split_whitespace (s : string) : list string :=
  match s with
  | EmptyString => []
  | String c rest =>
      if Str.is_space c then split_whitespace rest
      else match rest with
           | EmptyString => [String c EmptyString]
           | String c' _ =>
               if Str.is_space c' then String c EmptyString :: split_whitespace rest
               else match split_whitespace rest with
                    | word :: words => String c word :: words
                    | [] => [String c EmptyString]
                    end
           end
  end.

(** A set of strings, as far as membership goes. *)
Definition in_set (x : string) (s : list string) : bool :=
  existsb (String.eqb x) s.

Definition load_stoplist (contents : string) : list string :=
  split_whitespace contents.

(** The body of [for line in file] (lines 51-55). *)
Definition process_line (excluded_tokens : list string) (token_count : dict Z)
           (line : string) : result (dict Z) :=
  let parts := Str.split ":" (Str.strip line) in
  if (List.length parts =? 2)%nat then
    let token := Str.strip (nth 0 parts "") in
    count <- Str.int (Str.strip (nth 1 parts "")) ;;
    if negb (in_set token excluded_tokens) && (1 <? String.length token)%nat
    then Ok (counter_add token_count token count)
    else Ok token_count
  else Ok token_count.

(** One file: a fresh [Counter] filled line by line (lines 48-55). *)
Definition process_text_file (excluded_tokens : list string) (file : text_file)
  : result (dict Z) :=
  for_each (process_line excluded_tokens) file [].

Definition process_text_files (import_folder : folder)
           (excluded_tokens : list string) : result (dict (dict Z)) :=
  for_each
    (fun individual_file_count '(import_file_name, file) =>
       if negb (Str.endswith import_file_name ".txt") then Ok individual_file_count
       else
         token_count <- process_text_file excluded_tokens file ;;
         Ok (set individual_file_count import_file_name token_count))
    import_folder [].

(** ** Document frequencies *)

Definition calculate_document_frequencies (individual_text_data : dict (dict Z))
  : dict Z :=
  fold_left
    (fun document_frequencies token_counts =>
       fold_left (fun df token => counter_add df token 1)
                 (keys token_counts) document_frequencies)
    (values individual_text_data) [].

(** ** tf-idf *)

Open Scope R_scope.

(** [a / b] on two ints, as the exact quotient: Python rounds it to binary64
    and raises [OverflowError] when it is beyond the range of a float, which
    is not modelled. *)
Definition truediv (a b : Z) : result R :=
  if (b =? 0)%Z then Raise ZeroDivisionError else Ok (IZR a / IZR b).

(** [x / y] on two floats. *)
Definition float_div (x y : R) : result R :=
  if Req_dec_T y 0 then Raise ZeroDivisionError else Ok (x / y).

Definition math_log (x : R) : result R :=
  if Rle_dec x 0 then Raise ValueError else Ok (ln x).

Definition math_sqrt (x : R) : result R :=
  if Rlt_dec x 0 then Raise ValueError else Ok (sqrt x).

(** [sum(token_counts.values())] *)
Definition sum_values (token_counts : dict Z) : Z :=
  fold_left Z.add (values token_counts) 0%Z.

(** Line 126. *)
Definition tf (count total_terms : Z) : result R :=
  q <- truediv count total_terms ;;
  math_log (1 + q).

(** Lines 129-132. *)
Definition idf (total_documents df_token : Z) : result R :=
  if (total_documents =? df_token)%Z then
    q <- truediv total_documents df_token ;;
    l <- math_log q ;;
    Ok (l + 1)
  else
    q <- truediv total_documents df_token ;;
    math_log q.

(** The body of the loop over the tokens of one document (lines 125-136);
    the state is [(intermediate_tf_idf_scores, sum_of_squares)]. *)
Definition score_token (document_frequencies : dict Z) (total_documents : Z)
           (total_terms : Z) (state : dict R * R) (item : string * Z)
  : result (dict R * R) :=
  let '(intermediate_tf_idf_scores, sum_of_squares) := state in
  let '(token, count) := item in
  tf_value <- tf count total_terms ;;
  idf_value <- idf total_documents (counter_get document_frequencies token) ;;
  let tf_idf := tf_value * idf_value in
  Ok (set intermediate_tf_idf_scores token tf_idf, sum_of_squares + tf_idf ^ 2).

(** Lines 139-140. *)
Definition normalize (intermediate_tf_idf_scores : dict R) (sum_of_squares : R)
  : result (dict R) :=
  norm <- math_sqrt sum_of_squares ;;
  comprehension
    (fun '(token, tf_idf) => w <- float_div tf_idf norm ;; Ok (token, w))
    intermediate_tf_idf_scores.

(** The scores of one document (lines 118-140). *)
Definition score_document (document_frequencies : dict Z) (total_documents : Z)
           (token_counts : dict Z) : result (dict R) :=
  let total_terms := sum_values token_counts in
  '(intermediate_tf_idf_scores, sum_of_squares) <-
    for_each (score_token document_frequencies total_documents total_terms)
             token_counts ([], 0) ;;
  normalize intermediate_tf_idf_scores sum_of_squares.

Definition calculate_tf_idf (individual_text_data : dict (dict Z))
           (document_frequencies : dict Z) (total_documents : Z)
  : result (dict (dict R)) :=
  for_each
    (fun final_tf_idf_scores '(file_name, token_counts) =>
       normalized_tf_idf_scores <-
         score_document document_frequencies total_documents token_counts ;;
       Ok (set final_tf_idf_scores file_name normalized_tf_idf_scores))
    individual_text_data [].

(** ** Export *)

(** [sorted(items, key=weight, reverse=True)]: a stable sort, entries of equal
    weight keep their order. *)
Fixpoint insert_by_weight (x : string * R) (l : list (string * R))
  : list (string * R) :=
  match l with
  | [] => [x]
  | y :: rest =>
      if Rlt_dec (snd x) (snd y) then y :: insert_by_weight x rest else x :: l
  end.

Definition sorted_by_term_weight (token_tf_idf : dict R) : list (string * R) :=
  fold_right insert_by_weight [] token_tf_idf.

(** An output file is the list of its lines, one [(token, weight)] per line;
    the rendering of a weight with five decimals is left out.  The export
    folder maps file names to contents, and writing replaces the content. *)
Definition weight_file : Type := list (string * R).

Definition export_sorted_counts (export_folder : dict weight_file)
           (token_tf_idf : dict R) (export_file_name : string)
  : dict weight_file :=
  set export_folder (export_file_name ++ "_Sort_by_Term_Weight.wts")
      (sorted_by_term_weight token_tf_idf).

(** Line 165. *)
Definition filtered_tf_idf_scores (tf_idf_scores : dict (dict R))
           (file_name : string) (token_counts : dict Z) : result (dict R) :=
  comprehension
    (fun token =>
       scores <- item tf_idf_scores file_name ;;
       w <- item scores token ;;
       Ok (token, w))
    (keys token_counts).

Definition main_process_text_files (import_folder : folder)
           (export_folder : dict weight_file) (stoplist_file : string)
  : result (dict weight_file) :=
  let stoplist := load_stoplist stoplist_file in
  individual_file_tokens <- process_text_files import_folder stoplist ;;
  let document_frequencies :=
    calculate_document_frequencies individual_file_tokens in
  let total_documents := Z.of_nat (List.length individual_file_tokens) in
  tf_idf_scores <-
    calculate_tf_idf individual_file_tokens document_frequencies total_documents ;;
  for_each
    (fun exported '(file_name, token_counts) =>
       filtered <- filtered_tf_idf_scores tf_idf_scores file_name token_counts ;;
       Ok (export_sorted_counts exported filtered
             (nth 0 (Str.split "_" file_name) "")))
    individual_file_tokens export_folder.

Close Scope R_scope.

Definition newline : string := String (ascii_of_nat 10) EmptyString.

(** ** Vocabulary of the statements *)

(** The table of a corpus is a dict of dicts. *)
Definition wf_table {V} (table : dict (dict V)) : Prop :=
  wf table /\ Forall wf (values table).

(** The number of documents whose table has [token] as a key. *)
Definition documents_containing (token : string) (table : dict (dict Z)) : nat :=
  List.length (filter (fun token_counts => mem token_counts token) (values table)).

(** The score of one [(token, count)] item before normalisation, as a closed
    expression: what lines 126-134 compute when nothing raises. *)
Definition raw_score (document_frequencies : dict Z) (total_documents : Z)
           (total_terms : Z) (item : string * Z) : R :=
  let df_token := counter_get document_frequencies (fst item) in
  (ln (1 + IZR (snd item) / IZR total_terms)
   * (if (total_documents =? df_token)%Z
      then ln (IZR total_documents / IZR df_token) + 1
      else ln (IZR total_documents / IZR df_token)))%R.

Definition scored_item (document_frequencies : dict Z) (total_documents : Z)
           (total_terms : Z) (item : string * Z) : string * R :=
  (fst item, raw_score document_frequencies total_documents total_terms item).

Definition raw_scores (document_frequencies : dict Z) (total_documents : Z)
           (token_counts : dict Z) : dict R :=
  map (scored_item document_frequencies total_documents (sum_values token_counts))
      token_counts.

(** One turn of the loop over the documents (lines 117-141), as the entry it
    assigns. *)
Definition score_entry (document_frequencies : dict Z) (total_documents : Z)
           (doc : string * dict Z) : result (string * dict R) :=
  weights <- score_document document_frequencies total_documents (snd doc) ;;
  Ok (fst doc, weights).

(** The sum of the squared entries of a dict of reals, and its square root,
    the Euclidean length of the vector. *)
Definition sum_squares (weights : dict R) : R :=
  fold_right (fun entry acc => (snd entry ^ 2 + acc)%R) 0%R weights.

Definition l2_norm (weights : dict R) : R := sqrt (sum_squares weights).

(** The corpus of the worked example: one document, [cat] three times and
    [sat] twice; and the same corpus with a second, empty document. *)
Definition example_counts : dict Z := [("cat", 3); ("sat", 2)].

Definition example_frequencies : dict Z := [("cat", 1); ("sat", 1)].

Definition example_table : dict (dict Z) :=
  [("doc_1.txt", [("cat", 3); ("sat", 2)])].

Definition example_table_with_empty : dict (dict Z) :=
  [("doc_1.txt", [("cat", 3); ("sat", 2)]); ("empty_2.txt", [])].

(** The parts a line is split into (line 51). *)
Definition line_parts (line : string) : list string :=
  Str.split ":" (Str.strip line).

(** * tokenize.py: token counts of a collection of HTML documents

    The regular-expression clean-up of [strip_tags] is not embedded: it is a
    parameter of the functions that call it.  An output file is the list of
    the strings written to it, one per [write]. *)

Module Tokenize.

(** [str(n)] for an int: decimal digits, most significant first, after a
    minus sign for a negative number.  [digits_of fuel n acc] puts the digits
    of [n] before [acc]; [fuel] bounds the number of digits after the
    first. *)
Definition digit_char (d : Z) : ascii := ascii_of_nat (48 + Z.to_nat d).

Fixpoint digits_of (fuel : nat) (n : Z) (acc : string) : string :=
  let acc' := String (digit_char (n mod 10)) acc in
  match fuel with
  | O => acc'
  | S fuel' => if n <? 10 then acc' else digits_of fuel' (n / 10) acc'
  end.

Definition format_int (n : Z) : string :=
  if n <? 0
  then String "-" (digits_of (Z.to_nat (Z.log2 (- n))) (- n) EmptyString)
  else digits_of (Z.to_nat (Z.log2 n)) n EmptyString.

(** [s.replace(old, new)] for a non-empty [old]: the occurrences of [old],
    taken from the left and not overlapping, become [new].  [skip] counts the
    characters of a matched occurrence still to pass over. *)
Fixpoint replace_from (old new s : string) (skip : nat) : string :=
  match s with
  | EmptyString => EmptyString
  | String c rest =>
      match skip with
      | S k => replace_from old new rest k
      | O =>
          if String.prefix old s
          then (new ++ replace_from old new rest (String.length old - 1))%string
          else String c (replace_from old new rest 0)
      end
  end.

Definition replace (old new s : string) : string := replace_from old new s 0.

(** [Counter(tokens)] *)
Definition counter_of (tokens : list string) : dict Z :=
  fold_left (fun counts token => counter_add counts token 1) tokens [].

(** [counts.update(other)] on Counters: the counts of [other] are added. *)
Definition counter_update (counts other : dict Z) : dict Z :=
  fold_left (fun counts '(token, count) => counter_add counts token count)
            other counts.

(** [sorted(items, key=token)] and [sorted(items, key=count, reverse=True)]:
    stable sorts, strings compared character by character. *)
Fixpoint insert_by_token (x : string * Z) (l : list (string * Z))
  : list (string * Z) :=
  match l with
  | [] => [x]
  | y :: rest =>
      if String.ltb (fst y) (fst x) then y :: insert_by_token x rest else x :: l
  end.

Fixpoint insert_by_count (x : string * Z) (l : list (string * Z))
  : list (string * Z) :=
  match l with
  | [] => [x]
  | y :: rest =>
      if snd x <? snd y then y :: insert_by_count x rest else x :: l
  end.

Definition sort_word_counts (token_counts : dict Z)
  : list (string * Z) * list (string * Z) :=
  let sorted_by_token := fold_right insert_by_token [] token_counts in
  let sorted_by_count := fold_right insert_by_count [] sorted_by_token in
  (sorted_by_token, sorted_by_count).

(** The string written for one entry (lines 151 and 162). *)
Definition frequency_line (entry : string * Z) : string :=
  (fst entry ++ ": " ++ format_int (snd entry) ++ newline)%string.

Definition export_sorted_counts (export_folder : dict text_file)
           (sorted_by_token sorted_by_count : list (string * Z))
           (export_file_name : string) : dict text_file :=
  set export_folder (export_file_name ++ "_Sort_by_Frequency.txt")
      (map frequency_line sorted_by_count).

Definition export_combined_counts (export_folder : dict text_file)
           (combined_token_counts : dict Z) : dict text_file :=
  let '(sorted_by_token, sorted_by_count) :=
    sort_word_counts combined_token_counts in
  set export_folder "Combined_Sort_by_Frequency.txt"
      (map frequency_line sorted_by_count).

Section Html.

Variable strip_tags : string -> list string.

(** The state is [(global_token_counts, export folder)]; a file is given by
    its name (the base name of its path) and its content.  The handler of
    line 73 is for failures of the file system, which have no counterpart
    here. *)
Definition process_html_file (state : dict Z * dict text_file)
           (import_file_name html_content : string)
  : dict Z * dict text_file :=
  let '(global_token_counts, export_folder) := state in
  let text_content := strip_tags html_content in
  let token_counts := counter_of text_content in
  let global_token_counts := counter_update global_token_counts token_counts in
  let '(sorted_by_token, sorted_by_count) := sort_word_counts token_counts in
  let export_file_name := replace ".html" "" import_file_name in
  (global_token_counts,
   export_sorted_counts export_folder sorted_by_token sorted_by_count
                        export_file_name).

Definition process_html_files (import_folder : list (string * string))
           (state : dict Z * dict text_file) : dict Z * dict text_file :=
  fold_left
    (fun state '(import_file_name, html_content) =>
       if Str.endswith import_file_name ".html"
       then process_html_file state import_file_name html_content
       else state)
    import_folder state.

(** The script: every HTML file, then the combined counts. *)
Definition main (import_folder : list (string * string))
           (export_folder : dict text_file) : dict text_file :=
  let '(global_token_counts, exported) :=
    process_html_files import_folder ([], export_folder) in
  export_combined_counts exported global_token_counts.

End Html.

End Tokenize.

(** ** Vocabulary of the further statements *)

(** Every character of a string passes a test. *)
Fixpoint string_forall (p : ascii -> bool) (s : string) : bool :=
  match s with
  | EmptyString => true
  | String c rest => p c && string_forall p rest
  end.

Definition no_space (s : string) : bool :=
  string_forall (fun c => negb (Str.is_space c)) s.

Definition no_char (c : ascii) (s : string) : bool :=
  string_forall (fun c' => negb (Ascii.eqb c' c)) s.

(** The words of a list, each followed by one separator character. *)
Fixpoint join_words (sep : ascii) (words : list string) : string :=
  match words with
  | [] => EmptyString
  | word :: rest => (word ++ String sep (join_words sep rest))%string
  end.

(** A line the loader gets past: not two parts, or an integer second part. *)
Definition line_loads (line : string) : bool :=
  if (List.length (line_parts line) =? 2)%nat then
    match Str.int (Str.strip (nth 1 (line_parts line) "")) with
    | Ok _ => true
    | Raise _ => false
    end
  else true.

(** The entry carries the weight [w]. *)
Definition has_weight (w : R) (entry : string * R) : bool :=
  if Req_dec_T (snd entry) w then true else false.

(** The base name an output file is given (line 166). *)
Definition export_name (file_name : string) : string :=
  nth 0 (Str.split "_" file_name) "".

(** A document the scoring loop gets through: empty, or with a total other
    than zero and every [1 + count / total] in the domain of the logarithm. *)
Definition scorable (token_counts : dict Z) : Prop :=
  token_counts = []
  \/ (sum_values token_counts <> 0
      /\ Forall (fun count =>
                   (0 < 1 + IZR count / IZR (sum_values token_counts))%R)
                (values token_counts)).

(** A character of a decimal literal: a digit or the minus sign. *)
Definition int_char (c : ascii) : bool :=
  Str.is_digit c || Ascii.eqb c "-".

(** A token as [str.split] yields them and with no colon in it. *)
Definition clean_token (token : string) : bool :=
  no_space token && no_char ":" token.

(** What the loader keeps of an entry. *)
Definition kept_by_loader (excluded_tokens : list string) (entry : string * Z)
  : bool :=
  negb (in_set (fst entry) excluded_tokens) && (1 <? String.length (fst entry))%nat.

(** The number of occurrences of a token in the HTML files of a folder, the
    tokens of a file being what [strip_tags] makes of its content. *)
Definition occurrences_in_folder (strip_tags : string -> list string)
           (import_folder : list (string * string)) (token : string) : Z :=
  fold_right
    (fun entry total =>
       if Str.endswith (fst entry) ".html"
       then Z.of_nat (count_occ string_dec (strip_tags (snd entry)) token) + total
       else total)
    0 import_folder.

(** A file as the tokenizer writes them: one line per token, the tokens
    without whitespace or colon, the counts at least 1. *)
Definition frequency_file (file : text_file) : Prop :=
  exists rows,
    file = map Tokenize.frequency_line rows
    /\ NoDup (map fst rows)
    /\ Forall (fun row => clean_token (fst row) = true /\ 1 <= snd row) rows.

(** * Properties *)

(** A [Forall] over a list that is written out. *)
Ltac forall_entries :=
  simpl; repeat first [apply Forall_nil | apply Forall_cons];
  try first [simpl; lia | vm_compute; first [reflexivity | discriminate]].

Open Scope list_scope.

(** ** The error monad *)

Lemma bind_ok {A B} (m : result A) (k : A -> result B) (b : B) :
  Py.bind m k = Ok b -> exists a, m = Ok a /\ k a = Ok b.
Proof.
  destruct m as [a|e]; simpl; intros H; [exists a; auto | discriminate].
Qed.

Lemma for_each_app {S X} (body : S -> X -> result S) (xs ys : list X) (s : S) :
  for_each body (xs ++ ys) s = Py.bind (for_each body xs s) (for_each body ys).
Proof.
  revert s; induction xs as [|x xs IH]; intros s; simpl; [reflexivity|].
  destruct (body s x) as [s'|e]; simpl; [apply IH | reflexivity].
Qed.

(** A loop whose body can only raise [E], and does raise it at [x0] whatever
    the state, raises [E]. *)
Lemma for_each_raises {S X} (body : S -> X -> result S) (E : exn)
      (pre post : list X) (x0 : X) (s : S) :
  (forall s x e, body s x = Raise e -> e = E) ->
  (forall s, body s x0 = Raise E) ->
  for_each body (pre ++ x0 :: post) s = Raise E.
Proof.
  intros Hall Hx0; revert s; induction pre as [|x pre IH]; intros s; simpl.
  - rewrite Hx0; reflexivity.
  - destruct (body s x) as [s'|e] eqn:Hb; simpl; [apply IH|].
    apply Hall in Hb; subst; reflexivity.
Qed.

Lemma for_each_only_raises {S X} (body : S -> X -> result S) (E : exn)
      (xs : list X) (s : S) (e : exn) :
  (forall s x e, body s x = Raise e -> e = E) ->
  for_each body xs s = Raise e -> e = E.
Proof.
  intros Hall; revert s; induction xs as [|x xs IH]; intros s; simpl.
  - discriminate.
  - destruct (body s x) as [s'|e'] eqn:Hb; simpl.
    + apply IH.
    + intros H; injection H as <-; eapply Hall; eassumption.
Qed.

(** ** Dictionaries *)

Section DictFacts.

Context {V : Type}.
Implicit Types (d : dict V) (k : string) (v : V).

Lemma get_set_same d k v : get (set d k v) k = Some v.
Proof.
  induction d as [|[k' v'] d IH]; simpl.
  - rewrite String.eqb_refl; reflexivity.
  - destruct (String.eqb k' k) eqn:E; simpl; rewrite E; auto.
Qed.

Lemma get_set_other d k k' v : k <> k' -> get (set d k v) k' = get d k'.
Proof.
  intros Hne; induction d as [|[k0 v0] d IH]; simpl.
  - apply String.eqb_neq in Hne; rewrite Hne; reflexivity.
  - destruct (String.eqb k0 k) eqn:E; simpl.
    + apply String.eqb_eq in E; subst k0.
      apply String.eqb_neq in Hne; rewrite Hne; reflexivity.
    + rewrite IH; reflexivity.
Qed.

Lemma get_none d k : get d k = None <-> ~ In k (keys d).
Proof.
  induction d as [|[k' v'] d IH]; simpl.
  - tauto.
  - destruct (String.eqb k' k) eqn:E.
    + apply String.eqb_eq in E; split; [discriminate | tauto].
    + apply String.eqb_neq in E; rewrite IH; tauto.
Qed.

Lemma get_in d k v : wf d -> In (k, v) d -> get d k = Some v.
Proof.
  unfold wf; induction d as [|[k' v'] d IH]; simpl; intros Hnd Hin; [tauto|].
  inversion Hnd as [|? ? Hnot Hnd']; subst.
  destruct Hin as [Heq|Hin].
  - injection Heq as -> ->; rewrite String.eqb_refl; reflexivity.
  - destruct (String.eqb k' k) eqn:E; [|auto].
    apply String.eqb_eq in E; subst k'.
    exfalso; apply Hnot; apply (in_map fst) in Hin; exact Hin.
Qed.

Lemma get_some_in d k v : get d k = Some v -> In (k, v) d.
Proof.
  induction d as [|[k' v'] d IH]; simpl; [discriminate|].
  destruct (String.eqb k' k) eqn:E.
  - apply String.eqb_eq in E; subst; intros H; injection H as ->; auto.
  - auto.
Qed.

Lemma set_absent d k v : ~ In k (keys d) -> set d k v = d ++ [(k, v)].
Proof.
  induction d as [|[k' v'] d IH]; simpl; intros Hnot; [reflexivity|].
  destruct (String.eqb k' k) eqn:E.
  - apply String.eqb_eq in E; tauto.
  - rewrite IH; tauto.
Qed.

Lemma keys_set_present d k v : In k (keys d) -> keys (set d k v) = keys d.
Proof.
  induction d as [|[k' v'] d IH]; simpl; intros Hin; [tauto|].
  destruct (String.eqb k' k) eqn:E; simpl; [reflexivity|].
  apply String.eqb_neq in E; f_equal; apply IH; tauto.
Qed.

Lemma wf_set d k v : wf d -> wf (set d k v).
Proof.
  unfold wf; intros Hwf.
  destruct (in_dec string_dec k (keys d)) as [Hin|Hnot].
  - rewrite keys_set_present; assumption.
  - rewrite set_absent by assumption.
    unfold keys; rewrite map_app; simpl.
    apply NoDup_app; [assumption | repeat constructor; simpl; tauto |].
    intros x Hx [<-|[]]; apply Hnot, Hx.
Qed.

Lemma mem_in d k : mem d k = true <-> In k (keys d).
Proof.
  unfold mem; destruct (get d k) eqn:E.
  - split; [intros _|reflexivity].
    apply get_some_in in E; apply (in_map fst) in E; exact E.
  - split; [discriminate|]; intros Hin; apply get_none in E; tauto.
Qed.

End DictFacts.

Lemma counter_get_add (c : dict Z) (k k' : string) (n : Z) :
  counter_get (counter_add c k n) k' =
  if String.eqb k k' then counter_get c k + n else counter_get c k'.
Proof.
  unfold counter_add, counter_get at 1.
  destruct (String.eqb k k') eqn:E.
  - apply String.eqb_eq in E; subst k'; rewrite get_set_same; reflexivity.
  - apply String.eqb_neq in E; rewrite get_set_other by assumption; reflexivity.
Qed.

(** A loop that only assigns entries keeps the dict invariant. *)
Lemma for_each_wf {X V} (body : dict V -> X -> result (dict V)) (xs : list X) :
  (forall d x d', wf d -> body d x = Ok d' -> wf d') ->
  forall d d', wf d -> for_each body xs d = Ok d' -> wf d'.
Proof.
  intros Hbody; induction xs as [|x xs IH]; simpl; intros d d' Hwf H.
  - injection H as <-; exact Hwf.
  - apply bind_ok in H as (d1 & H1 & H2); eauto.
Qed.

(** A comprehension over items with pairwise distinct keys lists them in
    order. *)
Lemma NoDup_app_swap_cons {A} (l1 l2 : list A) (a : A) :
  NoDup (l1 ++ a :: l2) -> NoDup ((l1 ++ [a]) ++ l2).
Proof. rewrite <- app_assoc; trivial. Qed.

Lemma comprehension_from {X V} (f : X -> result (string * V))
      (g : X -> string * V) (xs : list X) (acc : dict V) :
  (forall x, In x xs -> f x = Ok (g x)) ->
  NoDup (keys acc ++ map fst (map g xs)) ->
  for_each (fun d x => '(k, v) <- f x ;; Ok (set d k v)) xs acc
  = Ok (acc ++ map g xs).
Proof.
  revert acc; induction xs as [|x xs IH]; intros acc Hf Hnd; simpl.
  - rewrite app_nil_r; reflexivity.
  - rewrite (Hf x) by (left; reflexivity); simpl.
    simpl in Hnd; destruct (g x) as [k v] eqn:Eg; simpl in Hnd |- *.
    assert (Hk : ~ In k (keys acc)).
    { intros Hin; apply NoDup_remove_2 in Hnd; apply Hnd.
      apply in_or_app; left; exact Hin. }
    rewrite set_absent by exact Hk; rewrite IH.
    + rewrite <- app_assoc; reflexivity.
    + intros y Hy; apply Hf; right; exact Hy.
    + unfold keys; rewrite map_app; simpl.
      apply NoDup_app_swap_cons; exact Hnd.
Qed.

Lemma comprehension_distinct {X V} (f : X -> result (string * V))
      (g : X -> string * V) (xs : list X) :
  (forall x, In x xs -> f x = Ok (g x)) ->
  NoDup (map fst (map g xs)) ->
  comprehension f xs = Ok (map g xs).
Proof.
  intros Hf Hnd; unfold comprehension.
  rewrite (comprehension_from f g xs [] Hf Hnd); reflexivity.
Qed.

(** ** The loader *)

Lemma int_only_value_error (s : string) (e : exn) :
  Str.int s = Raise e -> e = ValueError.
Proof.
  unfold Str.int.
  destruct (match Str.skip_c_space (Str.to_ascii s) with
            | String "+"%char rest => (false, rest)
            | String "-"%char rest => (true, rest)
            | _ => (false, Str.skip_c_space (Str.to_ascii s))
            end) as [negative s2].
  assert (Hscan : match Str.scan_digits s2 false 0 0 with
                  | Some (v, rest) =>
                      match Str.skip_c_space rest with
                      | EmptyString => Ok (if negative then - v else v)
                      | String _ _ => Raise ValueError
                      end
                  | None => Raise ValueError
                  end = Raise e -> e = ValueError).
  { destruct (Str.scan_digits s2 false 0 0) as [[v rest]|];
      [destruct (Str.skip_c_space rest)|]; congruence. }
  destruct s2 as [|c s2']; [exact Hscan|].
  destruct c as [[] [] [] [] [] [] [] []]; solve [exact Hscan | congruence].
Qed.

Lemma process_line_unfold (excluded_tokens : list string) (token_count : dict Z)
      (line : string) :
  List.length (line_parts line) = 2%nat ->
  process_line excluded_tokens token_count line =
  (count <- Str.int (Str.strip (nth 1 (line_parts line) "")) ;;
   let token := Str.strip (nth 0 (line_parts line) "") in
   if negb (in_set token excluded_tokens) && (1 <? String.length token)%nat
   then Ok (counter_add token_count token count)
   else Ok token_count).
Proof.
  unfold process_line, line_parts; intros ->; reflexivity.
Qed.

Lemma process_line_skip (excluded_tokens : list string) (token_count : dict Z)
      (line : string) :
  List.length (line_parts line) <> 2%nat ->
  process_line excluded_tokens token_count line = Ok token_count.
Proof.
  unfold process_line, line_parts; intros H.
  apply Nat.eqb_neq in H; rewrite H; reflexivity.
Qed.

Lemma process_line_only_value_error (excluded_tokens : list string)
      (token_count : dict Z) (line : string) (e : exn) :
  process_line excluded_tokens token_count line = Raise e -> e = ValueError.
Proof.
  unfold process_line.
  destruct (List.length _ =? 2)%nat; [|discriminate].
  destruct (Str.int _) as [n|e'] eqn:E; simpl.
  - destruct (_ && _); discriminate.
  - intros H; injection H as <-; eapply int_only_value_error; eassumption.
Qed.

Lemma process_line_wf (excluded_tokens : list string) (tc tc' : dict Z)
      (line : string) :
  wf tc -> process_line excluded_tokens tc line = Ok tc' -> wf tc'.
Proof.
  unfold process_line; intros Hwf.
  destruct (List.length _ =? 2)%nat; [|congruence].
  destruct (Str.int _) as [n|e]; simpl; [|discriminate].
  destruct (_ && _); intros H; injection H as <-; [apply wf_set|]; assumption.
Qed.

Lemma process_text_file_wf (excluded_tokens : list string) (file : text_file)
      (tc : dict Z) :
  process_text_file excluded_tokens file = Ok tc -> wf tc.
Proof.
  unfold process_text_file; apply for_each_wf.
  - intros d x d'; apply process_line_wf.
  - constructor.
Qed.

Lemma values_set_Forall {V} (P : V -> Prop) (d : dict V) (k : string) (v : V) :
  Forall P (values d) -> P v -> Forall P (values (set d k v)).
Proof.
  induction d as [|[k' v'] d IH]; simpl; intros Hall Hv.
  - repeat constructor; assumption.
  - inversion Hall; subst.
    destruct (String.eqb k' k); simpl; constructor; auto.
Qed.

(** What the loader returns is a well-formed table. *)
Lemma process_text_files_wf (import_folder : folder)
      (excluded_tokens : list string) (table : dict (dict Z)) :
  process_text_files import_folder excluded_tokens = Ok table -> wf_table table.
Proof.
  unfold process_text_files.
  assert (Hinit : wf_table (@nil (string * dict Z))) by (split; constructor).
  revert Hinit; generalize (@nil (string * dict Z)) as acc.
  induction import_folder as [|[name file] rest IH]; simpl; intros acc Hacc H.
  - injection H as <-; exact Hacc.
  - apply bind_ok in H as (acc' & Hbody & Hrest).
    apply (IH acc'); [|exact Hrest].
    destruct (negb (Str.endswith name ".txt")).
    + injection Hbody as <-; exact Hacc.
    + apply bind_ok in Hbody as (tc & Htc & Hset); injection Hset as <-.
      destruct Hacc as [Hwf Hall]; split.
      * apply wf_set; exact Hwf.
      * apply values_set_Forall; [exact Hall|].
        eapply process_text_file_wf; eassumption.
Qed.

Example scenario_a_table :
  process_text_file ["the"; "a"]
    ["the:5" ++ newline; "cat:3" ++ newline; "sat:2" ++ newline; "a:4" ++ newline]%string
  = Ok [("cat", 3); ("sat", 2)].
Proof. reflexivity. Qed.

Example counts_are_summed :
  process_text_file [] ["cat:3" ++ newline; "  cat : 4 " ++ newline]%string
  = Ok [("cat", 7)].
Proof. reflexivity. Qed.

Example zero_count_is_stored :
  process_text_file [] ["cat:0" ++ newline; "dog:5" ++ newline]%string
  = Ok [("cat", 0); ("dog", 5)].
Proof. reflexivity. Qed.

(** C8. A line whose split on the colon does not give exactly two parts is
    skipped: it leaves the counter as it is, and the table of a file that
    holds such a line is the table of the file without it. *)
Theorem malformed_line_is_skipped (excluded_tokens : list string) (line : string) :
  List.length (line_parts line) <> 2%nat ->
  (forall token_count,
      process_line excluded_tokens token_count line = Ok token_count) /\
  (forall before after : text_file,
      process_text_file excluded_tokens (before ++ line :: after)
      = process_text_file excluded_tokens (before ++ after)).
Proof.
  intros Hparts; split.
  - intros tc; apply process_line_skip; exact Hparts.
  - intros before after; unfold process_text_file.
    rewrite !for_each_app; simpl.
    destruct (for_each (process_line excluded_tokens) before []) as [tc|e];
      simpl; [|reflexivity].
    rewrite process_line_skip by exact Hparts; reflexivity.
Qed.

Lemma malformed_line_is_skipped_witness :
  List.length (line_parts ("badline" ++ newline)%string) <> 2%nat /\
  process_text_file ["the"]
    (["cat:3" ++ newline]%string ++ ("badline" ++ newline)%string
       :: ["cat:4" ++ newline; "a:b:c" ++ newline]%string)
  = Ok [("cat", 7)].
Proof.
  assert (H : List.length (line_parts ("badline" ++ newline)%string) <> 2%nat)
    by (vm_compute; discriminate).
  split; [exact H|].
  rewrite (proj2 (@malformed_line_is_skipped ["the"] _ H)).
  reflexivity.
Defined.

(** C10. A line with exactly two parts whose second part is not an integer
    literal raises [ValueError]: the line [cat: dog] does, and a run over a
    folder with a [.txt] file holding it ends in [ValueError].  With two parts
    the conversion is always attempted, so its failure is never skipped. *)
Theorem non_integer_count_raises :
  List.length (line_parts ("cat: dog" ++ newline)%string) = 2%nat /\
  (forall excluded_tokens token_count,
      process_line excluded_tokens token_count ("cat: dog" ++ newline)%string
      = Raise ValueError) /\
  (forall excluded_tokens token_count line,
      List.length (line_parts line) = 2%nat ->
      forall e, Str.int (Str.strip (nth 1 (line_parts line) ""%string)) = Raise e ->
      process_line excluded_tokens token_count line = Raise ValueError) /\
  (forall excluded_tokens line (pre post : folder) name (before after : text_file),
      (forall token_count,
          process_line excluded_tokens token_count line = Raise ValueError) ->
      Str.endswith name ".txt" = true ->
      process_text_files (pre ++ (name, before ++ line :: after) :: post)
                         excluded_tokens
      = Raise ValueError) /\
  (forall import_folder export_folder stoplist_file,
      process_text_files import_folder (load_stoplist stoplist_file)
      = Raise ValueError ->
      main_process_text_files import_folder export_folder stoplist_file
      = Raise ValueError).
Proof.
  split; [reflexivity|].
  split; [reflexivity|].
  split.
  { intros excluded tc line Hparts e He.
    rewrite process_line_unfold by exact Hparts.
    rewrite He; simpl.
    apply int_only_value_error in He; subst; reflexivity. }
  split.
  { intros excluded line pre post name before after Hline Hname.
    unfold process_text_files; apply for_each_raises.
    - intros acc [n f] e; destruct (negb (Str.endswith n ".txt")); [discriminate|].
      destruct (process_text_file excluded f) as [tc|e'] eqn:E; simpl;
        [discriminate|].
      intros H; injection H as <-.
      unfold process_text_file in E.
      eapply for_each_only_raises; [|exact E].
      intros s x e0; apply process_line_only_value_error.
    - intros acc; rewrite Hname; simpl.
      unfold process_text_file.
      rewrite (@for_each_raises _ _ _ ValueError); [reflexivity| |exact Hline].
      intros s x e0; apply process_line_only_value_error. }
  intros import_folder export_folder stoplist_file H.
  unfold main_process_text_files; rewrite H; reflexivity.
Qed.

Lemma non_integer_count_raises_witness :
  main_process_text_files
    [("notes.md", ["x:y"]%string);
     ("doc_1.txt", ["the:5" ++ newline; "cat: dog" ++ newline; "sat:2"]%string)]
    [] ("the a")%string
  = Raise ValueError.
Proof.
  destruct non_integer_count_raises as (_ & Hline & _ & Hrun & Hmain).
  apply Hmain.
  apply (Hrun _ ("cat: dog" ++ newline)%string
              [("notes.md", ["x:y"]%string)] [] "doc_1.txt"%string
              ["the:5" ++ newline]%string ["sat:2"%string]).
  - intros tc; apply Hline.
  - reflexivity.
Defined.

(** ** Document frequencies *)

Lemma mem_cons {V} (k k' : string) (v : V) (d : dict V) :
  mem ((k', v) :: d) k = if String.eqb k' k then true else mem d k.
Proof. unfold mem; simpl; destruct (String.eqb k' k); reflexivity. Qed.

(** One document adds one to the counter of each of its tokens and leaves the
    other counters alone. *)
Lemma count_one_document (token_counts : dict Z) (token : string) :
  wf token_counts ->
  forall df,
    counter_get
      (fold_left (fun df token => counter_add df token 1) (keys token_counts) df)
      token
    = counter_get df token + (if mem token_counts token then 1 else 0).
Proof.
  unfold wf; induction token_counts as [|[k c] rest IH]; simpl; intros Hnd df.
  - unfold mem; simpl; lia.
  - inversion Hnd as [|? ? Hnot Hnd']; subst.
    rewrite IH by assumption.
    rewrite counter_get_add, mem_cons.
    destruct (String.eqb k token) eqn:E; [|reflexivity].
    apply String.eqb_eq in E; subst k.
    destruct (mem rest token) eqn:M; [|lia].
    apply mem_in in M; contradiction.
Qed.

Lemma count_documents (docs : list (dict Z)) (token : string) :
  Forall wf docs ->
  forall df,
    counter_get
      (fold_left
         (fun document_frequencies token_counts =>
            fold_left (fun df token => counter_add df token 1)
                      (keys token_counts) document_frequencies)
         docs df)
      token
    = counter_get df token
      + Z.of_nat (List.length (filter (fun tc => mem tc token) docs)).
Proof.
  induction docs as [|tc docs IH]; simpl; intros Hall df.
  - lia.
  - inversion Hall; subst.
    rewrite IH by assumption.
    rewrite count_one_document by assumption.
    destruct (mem tc token); simpl List.length; lia.
Qed.

Lemma documents_containing_le (token : string) (table : dict (dict Z)) :
  (documents_containing token table <= List.length table)%nat.
Proof.
  unfold documents_containing, values.
  etransitivity; [apply filter_length_le|].
  rewrite length_map; reflexivity.
Qed.

Lemma documents_containing_pos (token : string) (table : dict (dict Z))
      (name : string) (token_counts : dict Z) :
  In (name, token_counts) table -> In token (keys token_counts) ->
  (1 <= documents_containing token table)%nat.
Proof.
  intros Hin Hkey; unfold documents_containing.
  assert (Hf : In token_counts
                  (filter (fun tc => mem tc token) (values table))).
  { apply filter_In; split.
    - apply (in_map snd) in Hin; exact Hin.
    - apply mem_in; exact Hkey. }
  destruct (filter _ _); [destruct Hf | simpl; lia].
Qed.

(** C6. Each document adds exactly one to the counter of each token among its
    keys, whatever the count stored under the key; the counter of a token is
    therefore the number of documents holding it, and lies between 1 and the
    number of documents when some document holds it. *)
Theorem document_frequency_counts_documents (table : dict (dict Z))
        (token : string) :
  Forall wf (values table) ->
  (forall name token_counts,
      wf token_counts ->
      counter_get
        (calculate_document_frequencies (table ++ [(name, token_counts)])) token
      = counter_get (calculate_document_frequencies table) token
        + (if mem token_counts token then 1 else 0)) /\
  counter_get (calculate_document_frequencies table) token
  = Z.of_nat (documents_containing token table) /\
  ((exists name token_counts,
       In (name, token_counts) table /\ In token (keys token_counts)) ->
   1 <= counter_get (calculate_document_frequencies table) token
     <= Z.of_nat (List.length table)).
Proof.
  intros Hall.
  assert (Hcount : counter_get (calculate_document_frequencies table) token
                   = Z.of_nat (documents_containing token table)).
  { unfold calculate_document_frequencies, documents_containing.
    rewrite count_documents by exact Hall; reflexivity. }
  split; [|split].
  - intros name tc Hwf.
    unfold calculate_document_frequencies, values.
    rewrite map_app, fold_left_app; simpl.
    apply count_one_document; exact Hwf.
  - exact Hcount.
  - intros (name & tc & Hin & Hkey); rewrite Hcount.
    pose proof (documents_containing_le token table).
    pose proof (documents_containing_pos token table name tc Hin Hkey).
    lia.
Qed.

Example fifty_occurrences_count_once :
  calculate_document_frequencies
    [("d1", [("cat", 50); ("sat", 2)]); ("d2", [("cat", 1)]); ("d3", [])]
  = [("cat", 2); ("sat", 1)].
Proof. reflexivity. Qed.

Lemma document_frequency_counts_documents_witness :
  let table := [("d1", [("cat", 50); ("sat", 2)]); ("d2", [("cat", 1)]);
                ("d3", [])]%string in
  counter_get (calculate_document_frequencies table) "cat" = 2 /\
  1 <= counter_get (calculate_document_frequencies table) "cat" <= 3.
Proof.
  intros table.
  assert (Hwf : Forall wf (values table)).
  { unfold wf; repeat constructor; simpl; intuition discriminate. }
  destruct (@document_frequency_counts_documents table "cat" Hwf)
    as (_ & Hcount & Hbounds).
  split; [rewrite Hcount; reflexivity|].
  apply Hbounds.
  exists "d2"%string, [("cat"%string, 1)]; simpl; auto.
Defined.

(** ** Term frequency and inverse document frequency *)

Section TfIdfFacts.

Local Open Scope R_scope.

Lemma truediv_inv (a b : Z) (q : R) :
  truediv a b = Ok q -> b <> 0%Z /\ q = IZR a / IZR b.
Proof.
  unfold truediv; destruct (Z.eqb_spec b 0); [discriminate|].
  intros H; injection H as <-; auto.
Qed.

Lemma truediv_ok (a b : Z) :
  b <> 0%Z -> truediv a b = Ok (IZR a / IZR b).
Proof.
  unfold truediv; destruct (Z.eqb_spec b 0); [contradiction | reflexivity].
Qed.

Lemma math_log_inv (x v : R) : math_log x = Ok v -> 0 < x /\ v = ln x.
Proof.
  unfold math_log; destruct (Rle_dec x 0); [discriminate|].
  intros H; injection H as <-; split; [lra | reflexivity].
Qed.

Lemma math_log_ok (x : R) : 0 < x -> math_log x = Ok (ln x).
Proof.
  unfold math_log; destruct (Rle_dec x 0); [lra | reflexivity].
Qed.

Lemma tf_inv (count total_terms : Z) (v : R) :
  tf count total_terms = Ok v ->
  total_terms <> 0%Z /\ 0 < 1 + IZR count / IZR total_terms
  /\ v = ln (1 + IZR count / IZR total_terms).
Proof.
  unfold tf; intros H.
  apply bind_ok in H as (q & Hq & Hlog).
  apply truediv_inv in Hq as [Hne ->].
  apply math_log_inv in Hlog as [Hpos ->]; auto.
Qed.

Lemma tf_ok (count total_terms : Z) :
  total_terms <> 0%Z -> 0 < 1 + IZR count / IZR total_terms ->
  tf count total_terms = Ok (ln (1 + IZR count / IZR total_terms)).
Proof.
  intros Hne Hpos; unfold tf.
  rewrite truediv_ok by exact Hne; simpl.
  apply math_log_ok; exact Hpos.
Qed.

Lemma idf_inv (total_documents df_token : Z) (v : R) :
  idf total_documents df_token = Ok v ->
  df_token <> 0%Z /\ 0 < IZR total_documents / IZR df_token
  /\ v = if (total_documents =? df_token)%Z
         then ln (IZR total_documents / IZR df_token) + 1
         else ln (IZR total_documents / IZR df_token).
Proof.
  unfold idf; destruct (total_documents =? df_token)%Z; intros H.
  - apply bind_ok in H as (q & Hq & H).
    apply bind_ok in H as (l & Hl & H).
    apply truediv_inv in Hq as [Hne ->].
    apply math_log_inv in Hl as [Hpos ->].
    injection H as <-; auto.
  - apply bind_ok in H as (q & Hq & Hl).
    apply truediv_inv in Hq as [Hne ->].
    apply math_log_inv in Hl as [Hpos ->]; auto.
Qed.

Lemma idf_ok (total_documents df_token : Z) :
  df_token <> 0%Z -> 0 < IZR total_documents / IZR df_token ->
  idf total_documents df_token
  = Ok (if (total_documents =? df_token)%Z
        then ln (IZR total_documents / IZR df_token) + 1
        else ln (IZR total_documents / IZR df_token)).
Proof.
  intros Hne Hpos; unfold idf.
  rewrite truediv_ok by exact Hne; simpl.
  rewrite math_log_ok by exact Hpos; simpl.
  destruct (total_documents =? df_token)%Z; reflexivity.
Qed.

Lemma IZR_div_pos (a b : Z) : (0 < a)%Z -> (0 < b)%Z -> 0 < IZR a / IZR b.
Proof.
  intros Ha Hb; apply IZR_lt in Ha, Hb.
  apply Rdiv_lt_0_compat; assumption.
Qed.

Lemma IZR_div_same (a : Z) : a <> 0%Z -> IZR a / IZR a = 1.
Proof.
  intros Ha; unfold Rdiv; apply Rinv_r.
  intros H; apply eq_IZR in H; contradiction.
Qed.

(** An inverse document frequency that is computed is never zero. *)
Lemma idf_nonzero (total_documents df_token : Z) (v : R) :
  idf total_documents df_token = Ok v -> v <> 0.
Proof.
  intros H; apply idf_inv in H as (Hne & Hpos & ->).
  destruct (Z.eqb_spec total_documents df_token) as [-> | Hdiff].
  - rewrite IZR_div_same by exact Hne; rewrite ln_1; lra.
  - apply ln_neq_0; [|exact Hpos].
    intros Heq; apply Hdiff, eq_IZR.
    assert (Hd : IZR df_token <> 0)
      by (intros H0; apply eq_IZR in H0; contradiction).
    apply (Rmult_eq_compat_r (IZR df_token)) in Heq.
    unfold Rdiv in Heq; rewrite Rmult_assoc, Rinv_l in Heq by exact Hd.
    lra.
Qed.

(** A term frequency that is computed is zero exactly on a zero count. *)
Lemma tf_zero_iff (count total_terms : Z) (v : R) :
  tf count total_terms = Ok v -> (v = 0 <-> count = 0%Z).
Proof.
  intros H; apply tf_inv in H as (Hne & Hpos & ->).
  assert (Hd : IZR total_terms <> 0)
    by (intros H0; apply eq_IZR in H0; contradiction).
  split.
  - intros Hln; rewrite <- ln_1 in Hln.
    apply ln_inv in Hln; [|exact Hpos|lra].
    apply eq_IZR.
    assert (Hq : IZR count / IZR total_terms = 0) by lra.
    apply (Rmult_eq_compat_r (IZR total_terms)) in Hq.
    unfold Rdiv in Hq; rewrite Rmult_assoc, Rinv_l in Hq by exact Hd.
    lra.
  - intros ->; unfold Rdiv; rewrite Rmult_0_l, Rplus_0_r; apply ln_1.
Qed.

Lemma ln_le_compat (x y : R) : 0 < x -> x <= y -> ln x <= ln y.
Proof.
  intros Hx [Hlt | ->]; [left; apply ln_increasing; assumption | right; reflexivity].
Qed.

End TfIdfFacts.

Section SumValues.

Lemma fold_left_add_from (l : list Z) (a : Z) :
  fold_left Z.add l a = a + fold_left Z.add l 0.
Proof.
  revert a; induction l as [|x l IH]; intros a; simpl; [lia|].
  rewrite (IH (a + x)), (IH x); lia.
Qed.

Lemma sum_values_cons (k : string) (c : Z) (rest : dict Z) :
  sum_values ((k, c) :: rest) = c + sum_values rest.
Proof.
  unfold sum_values; simpl; rewrite fold_left_add_from; reflexivity.
Qed.

Lemma sum_values_app (l1 l2 : dict Z) :
  sum_values (l1 ++ l2) = sum_values l1 + sum_values l2.
Proof.
  induction l1 as [|[k c] l1 IH]; simpl; [reflexivity|].
  rewrite !sum_values_cons, IH; lia.
Qed.

Lemma sum_values_nonneg (token_counts : dict Z) :
  Forall (fun n => 0 <= n) (values token_counts) -> 0 <= sum_values token_counts.
Proof.
  induction token_counts as [|[k c] rest IH]; simpl; intros Hall.
  - reflexivity.
  - inversion Hall; subst; rewrite sum_values_cons.
    specialize (IH ltac:(assumption)); lia.
Qed.

Lemma count_le_sum_values (token_counts : dict Z) (token : string) (count : Z) :
  Forall (fun n => 0 <= n) (values token_counts) ->
  In (token, count) token_counts -> count <= sum_values token_counts.
Proof.
  induction token_counts as [|[k c] rest IH]; simpl; intros Hall Hin; [tauto|].
  inversion Hall; subst; rewrite sum_values_cons.
  pose proof (@sum_values_nonneg rest ltac:(assumption)).
  destruct Hin as [Heq|Hin]; [injection Heq as -> ->; lia|].
  specialize (IH ltac:(assumption) Hin); lia.
Qed.

(** A table all of whose counts are zero (the empty one too) sums to 0. *)
Lemma sum_values_all_zero (token_counts : dict Z) :
  Forall (fun item => snd item = 0) token_counts -> sum_values token_counts = 0.
Proof.
  induction token_counts as [|[k c] rest IH]; intros Hall; [reflexivity|].
  inversion Hall; subst; simpl in *; subst.
  rewrite sum_values_cons, IH by assumption; reflexivity.
Qed.

End SumValues.

Section TermFrequency.

Local Open Scope R_scope.

(** For a fixed non-negative rest of the table, [c / (c + rest)] does not
    decrease when the non-negative count [c] grows. *)
Lemma share_monotone (c c' rest : Z) :
  (0 <= rest)%Z -> (0 <= c <= c')%Z -> (0 < c + rest)%Z ->
  IZR c / IZR (c + rest) <= IZR c' / IZR (c' + rest).
Proof.
  intros Hrest [Hc Hcc'] Hpos.
  assert (Hpos' : (0 < c' + rest)%Z) by lia.
  apply IZR_lt in Hpos, Hpos'.
  apply Rmult_le_reg_r with (r := IZR (c + rest)); [exact Hpos|].
  unfold Rdiv at 1; rewrite Rmult_assoc, Rinv_l, Rmult_1_r by lra.
  apply Rmult_le_reg_r with (r := IZR (c' + rest)); [exact Hpos'|].
  unfold Rdiv.
  replace (IZR c' * / IZR (c' + rest) * IZR (c + rest) * IZR (c' + rest))
    with (IZR c' * IZR (c + rest) * (IZR (c' + rest) * / IZR (c' + rest)))
    by ring.
  rewrite Rinv_r, Rmult_1_r by lra.
  rewrite <- !mult_IZR; apply IZR_le; nia.
Qed.

End TermFrequency.

(** C5. In a table of non-negative counts, raising the count of one token and
    keeping every other entry does not lower the term frequency computed for
    that token. *)
Theorem tf_monotone_in_count (before after : dict Z) (token : string)
        (count count' : Z) (v : R) :
  Forall (fun n => 0 <= n) (values (before ++ after)) ->
  0 <= count <= count' ->
  tf count (sum_values (before ++ (token, count) :: after)) = Ok v ->
  exists v',
    tf count' (sum_values (before ++ (token, count') :: after)) = Ok v'
    /\ (v <= v')%R.
Proof.
  intros Hall Hc Htf.
  pose proof (@sum_values_nonneg _ Hall) as Hrest.
  rewrite sum_values_app in Hrest.
  rewrite sum_values_app, sum_values_cons in Htf |- *.
  set (rest := sum_values before + sum_values after) in *.
  replace (sum_values before + (count + sum_values after))
    with (count + rest) in Htf by (unfold rest; lia).
  replace (sum_values before + (count' + sum_values after))
    with (count' + rest) by (unfold rest; lia).
  apply tf_inv in Htf as (Hne & Hpos & ->).
  assert (Htot : 0 < count + rest) by lia.
  pose proof (@share_monotone count count' rest Hrest Hc Htot) as Hshare.
  assert (Hq : (0 <= IZR count / IZR (count + rest))%R).
  { apply Rmult_le_pos; [apply IZR_le; lia|].
    left; apply Rinv_0_lt_compat, IZR_lt; lia. }
  exists (ln (1 + IZR count' / IZR (count' + rest))); split.
  - apply tf_ok; [lia | lra].
  - apply ln_le_compat; lra.
Qed.

Lemma tf_monotone_in_count_witness :
  exists v',
    tf 4 (sum_values ([("the", 0)] ++ ("cat", 4) :: [("sat", 2)])) = Ok v'
    /\ (ln (1 + IZR 3 / IZR 5) <= v')%R.
Proof.
  apply (@tf_monotone_in_count [("the", 0)]%string [("sat", 2)]%string
                               "cat"%string 3 4).
  - simpl; repeat (apply Forall_cons; [lia|]); apply Forall_nil.
  - lia.
  - change (sum_values _) with 5; apply tf_ok; [lia|].
    assert (0 < IZR 3 / IZR 5)%R by (apply IZR_div_pos; lia); lra.
Defined.

(** ** The scoring loop and the normalisation *)

Lemma for_each_ext {S X} (body1 body2 : S -> X -> result S) (xs : list X) (s : S) :
  (forall s x, body1 s x = body2 s x) ->
  for_each body1 xs s = for_each body2 xs s.
Proof.
  intros Hext; revert s; induction xs as [|x xs IH]; intros s; simpl.
  - reflexivity.
  - rewrite Hext; destruct (body2 s x); simpl; auto.
Qed.

(** A loop that assigns one entry per item, under keys that are pairwise
    distinct and new, appends the entries in order. *)
Lemma assign_loop_inv {X V} (f : X -> result (string * V)) (key : X -> string)
      (xs : list X) :
  (forall x kv, f x = Ok kv -> fst kv = key x) ->
  forall acc out,
    NoDup (keys acc ++ map key xs) ->
    for_each (fun d x => '(k, v) <- f x ;; Ok (set d k v)) xs acc = Ok out ->
    exists kvs, Forall2 (fun x kv => f x = Ok kv) xs kvs /\ out = acc ++ kvs.
Proof.
  intros Hkey; induction xs as [|x xs IH]; simpl; intros acc out Hnd H.
  - injection H as <-; exists []; split; [constructor | rewrite app_nil_r; reflexivity].
  - apply bind_ok in H as (d & Hd & Hrest).
    apply bind_ok in Hd as ([k v] & Hf & Hset); injection Hset as <-.
    pose proof (Hkey _ _ Hf) as Hk; simpl in Hk; subst k.
    assert (Hnew : ~ In (key x) (keys acc)).
    { intros Hin; apply NoDup_remove_2 in Hnd; apply Hnd.
      apply in_or_app; left; exact Hin. }
    rewrite set_absent in Hrest by exact Hnew.
    apply IH in Hrest as (kvs & Hall & ->).
    + exists ((key x, v) :: kvs); split; [constructor; assumption|].
      rewrite <- app_assoc; reflexivity.
    + unfold keys; rewrite map_app; simpl.
      apply NoDup_app_swap_cons; exact Hnd.
Qed.

Section Scoring.

Local Open Scope R_scope.

Variables (document_frequencies : dict Z) (total_documents total_terms : Z).

Local Abbreviation score :=
  (scored_item document_frequencies total_documents total_terms).

Lemma score_token_inv (scores : dict R) (s : R) (item : string * Z)
      (scores' : dict R) (s' : R) :
  score_token document_frequencies total_documents total_terms (scores, s) item
  = Ok (scores', s') ->
  total_terms <> 0%Z
  /\ scores' = set scores (fst item) (snd (score item))
  /\ s' = s + snd (score item) ^ 2
  /\ (snd (score item) = 0 <-> snd item = 0%Z).
Proof.
  destruct item as [token count]; unfold score_token; intros H.
  apply bind_ok in H as (tfv & Htf & H).
  apply bind_ok in H as (idfv & Hidf & H).
  injection H as <- <-.
  pose proof (tf_zero_iff _ _ Htf) as Hzero.
  pose proof (idf_nonzero _ _ Hidf) as Hnz.
  apply tf_inv in Htf as (Hne & _ & Etf).
  apply idf_inv in Hidf as (_ & _ & Eidf).
  assert (Eraw : snd (score (token, count)) = tfv * idfv)
    by (unfold scored_item, raw_score; simpl; rewrite <- Etf, <- Eidf; reflexivity).
  rewrite Eraw; repeat split; auto.
  - intros Hprod; apply Hzero.
    apply Rmult_integral in Hprod as [H0|H0]; [exact H0 | contradiction].
  - intros Hc; apply Hzero in Hc; rewrite Hc; ring.
Qed.

Lemma score_loop_inv (items : dict Z) :
  forall (scores : dict R) (s : R) (scores' : dict R) (s' : R),
    for_each (score_token document_frequencies total_documents total_terms)
             items (scores, s) = Ok (scores', s') ->
    (items <> [] -> total_terms <> 0%Z)
    /\ s' = s + sum_squares (map score items)
    /\ Forall (fun item => snd (score item) = 0 <-> snd item = 0%Z) items
    /\ (NoDup (keys scores ++ keys items) -> scores' = scores ++ map score items).
Proof.
  induction items as [|item items IH]; simpl; intros scores s scores' s' H.
  - injection H as <- <-; split; [|split; [|split]].
    + intros Hne; exfalso; apply Hne; reflexivity.
    + ring.
    + constructor.
    + intros _; rewrite app_nil_r; reflexivity.
  - apply bind_ok in H as ([scores1 s1] & Hstep & Hrest).
    apply score_token_inv in Hstep as (Hne & -> & -> & Hzero).
    apply IH in Hrest as (_ & -> & Hall & Happ).
    split; [|split; [|split]].
    + intros _; exact Hne.
    + unfold scored_item; simpl; ring.
    + constructor; assumption.
    + intros Hnd.
      assert (Hnew : ~ In (fst item) (keys scores)).
      { intros Hin; apply NoDup_remove_2 in Hnd; apply Hnd.
        apply in_or_app; left; exact Hin. }
      rewrite set_absent in Happ by exact Hnew.
      rewrite Happ.
      * rewrite <- app_assoc; reflexivity.
      * unfold keys; rewrite map_app; simpl.
        apply NoDup_app_swap_cons; exact Hnd.
Qed.

(** Every turn of a loop that has gone through has computed the term
    frequency and the inverse document frequency of its token. *)
Lemma score_loop_items_computed (items : dict Z) :
  forall state state',
    for_each (score_token document_frequencies total_documents total_terms)
             items state = Ok state' ->
    Forall (fun item =>
              exists tf_value idf_value,
                tf (snd item) total_terms = Ok tf_value
                /\ idf total_documents
                       (counter_get document_frequencies (fst item))
                   = Ok idf_value) items.
Proof.
  induction items as [|[token count] items IH]; simpl; intros state state' H.
  - constructor.
  - apply bind_ok in H as (state1 & Hstep & Hrest).
    constructor; [|eapply IH; exact Hrest].
    destruct state as [scores s]; unfold score_token in Hstep.
    apply bind_ok in Hstep as (tfv & Htf & Hstep).
    apply bind_ok in Hstep as (idfv & Hidf & _).
    exists tfv, idfv; auto.
Qed.

End Scoring.

Section Normalisation.

Local Open Scope R_scope.

Lemma sum_squares_nonneg (weights : dict R) : 0 <= sum_squares weights.
Proof.
  induction weights as [|[k w] rest IH]; simpl; [lra|].
  pose proof (pow2_ge_0 w); lra.
Qed.

Lemma sum_squares_pos (weights : dict R) (k : string) (w : R) :
  In (k, w) weights -> w <> 0 -> 0 < sum_squares weights.
Proof.
  induction weights as [|[k' w'] rest IH]; simpl; intros Hin Hw; [tauto|].
  pose proof (sum_squares_nonneg rest).
  destruct Hin as [Heq|Hin].
  - injection Heq as -> ->.
    assert (0 < w ^ 2) by (rewrite <- Rsqr_pow2; apply Rsqr_pos_lt; exact Hw).
    lra.
  - pose proof (pow2_ge_0 w'); specialize (IH Hin Hw); lra.
Qed.

Lemma sum_squares_scaled (weights : dict R) (n : R) :
  n <> 0 ->
  sum_squares (map (fun entry => (fst entry, snd entry / n)) weights)
  = sum_squares weights / n ^ 2.
Proof.
  intros Hn; induction weights as [|[k w] rest IH]; simpl.
  - unfold Rdiv; ring.
  - rewrite IH; field; exact Hn.
Qed.

Lemma math_sqrt_ok (x : R) : 0 <= x -> math_sqrt x = Ok (sqrt x).
Proof.
  intros Hx; unfold math_sqrt; destruct (Rlt_dec x 0); [lra | reflexivity].
Qed.

Lemma float_div_ok (x y : R) : y <> 0 -> float_div x y = Ok (x / y).
Proof.
  intros Hy; unfold float_div; destruct (Req_dec_T y 0); [contradiction|reflexivity].
Qed.

Lemma float_div_zero (x : R) : float_div x 0 = Raise ZeroDivisionError.
Proof.
  unfold float_div; destruct (Req_dec_T 0 0); [reflexivity | congruence].
Qed.

(** With a zero sum of squares nothing is divided for an empty dict and the
    first division raises for any other. *)
Lemma normalize_empty : normalize [] 0 = Ok [].
Proof.
  unfold normalize; rewrite math_sqrt_ok by lra; reflexivity.
Qed.

Lemma normalize_zero_norm (scores : dict R) :
  scores <> [] -> normalize scores 0 = Raise ZeroDivisionError.
Proof.
  intros Hne; unfold normalize; rewrite math_sqrt_ok by lra; simpl.
  rewrite sqrt_0.
  destruct scores as [|[token tf_idf] rest]; [congruence|].
  unfold comprehension; simpl; rewrite float_div_zero; reflexivity.
Qed.

Lemma normalize_ok (scores : dict R) (sum : R) :
  wf scores -> 0 < sum ->
  normalize scores sum
  = Ok (map (fun entry => (fst entry, snd entry / sqrt sum)) scores).
Proof.
  intros Hwf Hsum; unfold normalize; rewrite math_sqrt_ok by lra; simpl.
  pose proof (sqrt_lt_R0 _ Hsum) as Hnorm.
  apply comprehension_distinct.
  - intros [token tf_idf] _; rewrite float_div_ok by lra; reflexivity.
  - rewrite map_map; simpl; exact Hwf.
Qed.

Lemma l2_norm_normalized (scores : dict R) (sum : R) :
  0 < sum -> sum = sum_squares scores ->
  l2_norm (map (fun entry => (fst entry, snd entry / sqrt sum)) scores) = 1.
Proof.
  intros Hsum Heq; unfold l2_norm.
  pose proof (sqrt_lt_R0 _ Hsum) as Hnorm.
  rewrite sum_squares_scaled by lra.
  rewrite pow2_sqrt by lra.
  rewrite <- Heq; unfold Rdiv; rewrite Rinv_r by lra.
  apply sqrt_1.
Qed.

End Normalisation.

(** ** One document, then the corpus *)

Lemma Forall2_in_l {A B} (P : A -> B -> Prop) (xs : list A) (ys : list B) (x : A) :
  Forall2 P xs ys -> In x xs -> exists y, In y ys /\ P x y.
Proof.
  induction 1 as [|x0 y0 xs ys HP _ IH]; simpl; [tauto|].
  intros [<-|Hin]; [exists y0; auto|].
  destruct (IH Hin) as (y & Hy & HPy); exists y; auto.
Qed.

Lemma Forall2_in_r {A B} (P : A -> B -> Prop) (xs : list A) (ys : list B) (y : B) :
  Forall2 P xs ys -> In y ys -> exists x, In x xs /\ P x y.
Proof.
  induction 1 as [|x0 y0 xs ys HP _ IH]; simpl; [tauto|].
  intros [<-|Hin]; [exists x0; auto|].
  destruct (IH Hin) as (x & Hx & HPx); exists x; auto.
Qed.

Lemma nonzero_sum_has_nonzero_count (token_counts : dict Z) :
  sum_values token_counts <> 0 ->
  exists token count, In (token, count) token_counts /\ count <> 0.
Proof.
  induction token_counts as [|[k c] rest IH]; intros Hsum.
  - exfalso; apply Hsum; reflexivity.
  - rewrite sum_values_cons in Hsum.
    destruct (Z.eq_dec c 0) as [-> | Hc].
    + destruct (IH Hsum) as (t & n & Hin & Hn); exists t, n; simpl; auto.
    + exists k, c; simpl; auto.
Qed.

Section Documents.

Local Open Scope R_scope.

Variables (document_frequencies : dict Z) (total_documents : Z).

Local Abbreviation scores_of := (raw_scores document_frequencies total_documents).

(** The squares of the raw scores of a document sum to a positive number
    as soon as one count is not zero, since a raw score is zero only on a
    zero count. *)
Lemma sum_squares_raw_pos (token_counts : dict Z) :
  sum_values token_counts <> 0%Z ->
  Forall (fun item =>
            raw_score document_frequencies total_documents
                      (sum_values token_counts) item = 0
            <-> snd item = 0%Z) token_counts ->
  0 < sum_squares (scores_of token_counts).
Proof.
  intros Htotal Hzero.
  destruct (nonzero_sum_has_nonzero_count _ Htotal) as (t & c & Hin & Hc).
  rewrite Forall_forall in Hzero; specialize (Hzero _ Hin); simpl in Hzero.
  apply sum_squares_pos
    with (k := t)
         (w := raw_score document_frequencies total_documents
                         (sum_values token_counts) (t, c)).
  - unfold raw_scores.
    apply (in_map (fun item =>
                     (fst item,
                      raw_score document_frequencies total_documents
                                (sum_values token_counts) item))) in Hin.
    exact Hin.
  - intros H0; apply Hc, Hzero, H0.
Qed.

(** Once the scoring loop of a dict has gone through, the normalisation
    goes through too: the result is the raw scores divided by their
    Euclidean length, which is positive unless the document is empty. *)
Lemma score_document_of_loop (token_counts : dict Z) (state : dict R * R) :
  wf token_counts ->
  for_each (score_token document_frequencies total_documents
                        (sum_values token_counts))
           token_counts ([], 0) = Ok state ->
  score_document document_frequencies total_documents token_counts
  = Ok (map (fun entry =>
               (fst entry,
                snd entry / sqrt (sum_squares (scores_of token_counts))))
            (scores_of token_counts))
  /\ (token_counts <> [] -> 0 < sum_squares (scores_of token_counts))
  /\ Forall (fun item =>
               raw_score document_frequencies total_documents
                         (sum_values token_counts) item = 0
               <-> snd item = 0%Z) token_counts.
Proof.
  intros Hwf Hloop; unfold score_document; rewrite Hloop.
  destruct state as [scores s].
  apply score_loop_inv in Hloop as (Htotal & -> & Hzero & Hscores).
  rewrite Hscores by exact Hwf; simpl app.
  rewrite Rplus_0_l.
  fold (raw_scores document_frequencies total_documents token_counts).
  assert (Hpos : token_counts <> [] -> 0 < sum_squares (scores_of token_counts)).
  { intros Hne; apply sum_squares_raw_pos; [apply Htotal, Hne | exact Hzero]. }
  split; [|split; [exact Hpos | exact Hzero]].
  destruct token_counts as [|item rest].
  - apply normalize_empty.
  - simpl Py.bind; apply normalize_ok.
    + unfold wf, keys, raw_scores; rewrite map_map; exact Hwf.
    + apply Hpos; discriminate.
Qed.

Lemma score_document_inv (token_counts : dict Z) (weights : dict R) :
  wf token_counts ->
  score_document document_frequencies total_documents token_counts = Ok weights ->
  weights
  = map (fun entry =>
           (fst entry, snd entry / sqrt (sum_squares (scores_of token_counts))))
        (scores_of token_counts)
  /\ (token_counts <> [] -> 0 < sum_squares (scores_of token_counts))
  /\ Forall (fun item =>
               raw_score document_frequencies total_documents
                         (sum_values token_counts) item = 0
               <-> snd item = 0%Z) token_counts.
Proof.
  intros Hwf H.
  pose proof H as H'; unfold score_document in H'.
  apply bind_ok in H' as (state & Hloop & _).
  destruct (@score_document_of_loop _ _ Hwf Hloop) as (Hdoc & Hpos & Hzero).
  rewrite Hdoc in H; injection H as <-; auto.
Qed.

Lemma keys_raw_scores (token_counts : dict Z) :
  keys (scores_of token_counts) = keys token_counts.
Proof.
  unfold keys, raw_scores; rewrite map_map; reflexivity.
Qed.

Lemma score_document_keys (token_counts : dict Z) (weights : dict R) :
  wf token_counts ->
  score_document document_frequencies total_documents token_counts = Ok weights ->
  keys weights = keys token_counts.
Proof.
  intros Hwf H; apply score_document_inv in H as (-> & _ & _); [|exact Hwf].
  unfold keys at 1; rewrite map_map; simpl.
  apply keys_raw_scores.
Qed.

Lemma score_document_empty :
  score_document document_frequencies total_documents [] = Ok [].
Proof.
  unfold score_document; simpl; apply normalize_empty.
Qed.

Local Abbreviation score_doc := (score_entry document_frequencies total_documents).

Lemma calculate_tf_idf_inv (table : dict (dict Z)) (out : dict (dict R)) :
  wf table ->
  calculate_tf_idf table document_frequencies total_documents = Ok out ->
  Forall2 (fun doc entry =>
             fst entry = fst doc
             /\ score_document document_frequencies total_documents (snd doc)
                = Ok (snd entry))
          table out.
Proof.
  intros Hwf H; unfold calculate_tf_idf in H.
  rewrite for_each_ext
    with (body2 := fun d x => '(k, v) <- score_doc x ;; Ok (set d k v)) in H.
  2:{ intros d [name tc]; unfold score_entry; simpl.
      destruct (score_document _ _ tc); reflexivity. }
  apply assign_loop_inv with (key := fst) in H as (kvs & Hall & ->).
  - simpl; eapply Forall2_impl; [|exact Hall].
    intros doc [name weights] Hentry; unfold score_entry in Hentry.
    apply bind_ok in Hentry as (w & Hw & Hpair).
    injection Hpair as <- <-; auto.
  - intros doc kv Hentry; unfold score_entry in Hentry.
    apply bind_ok in Hentry as (w & Hw & Hpair).
    injection Hpair as <-; reflexivity.
  - exact Hwf.
Qed.

Lemma calculate_tf_idf_keys (table : dict (dict Z)) (out : dict (dict R)) :
  wf table ->
  calculate_tf_idf table document_frequencies total_documents = Ok out ->
  keys out = keys table.
Proof.
  intros Hwf H; apply calculate_tf_idf_inv in H; [|exact Hwf].
  clear Hwf; induction H as [|doc entry table out [Hk _] _ IH]; simpl.
  - reflexivity.
  - rewrite Hk, IH; reflexivity.
Qed.

(** The entry of a document in the result is what [score_document] returns
    on its table, and every entry of the result is such. *)
Lemma calculate_tf_idf_get (table : dict (dict Z)) (out : dict (dict R))
      (name : string) (token_counts : dict Z) :
  wf table ->
  calculate_tf_idf table document_frequencies total_documents = Ok out ->
  In (name, token_counts) table ->
  exists weights,
    get out name = Some weights
    /\ score_document document_frequencies total_documents token_counts
       = Ok weights.
Proof.
  intros Hwf H Hin.
  pose proof (calculate_tf_idf_keys Hwf H) as Hkeys.
  apply calculate_tf_idf_inv in H; [|exact Hwf].
  destruct (@Forall2_in_l _ _ _ _ _ _ H Hin) as ([name' weights] & Hout & Hname & Hscore).
  simpl in Hname, Hscore; subst name'.
  exists weights; split; [|exact Hscore].
  apply get_in; [unfold wf; rewrite Hkeys; exact Hwf | exact Hout].
Qed.

Lemma calculate_tf_idf_get_inv (table : dict (dict Z)) (out : dict (dict R))
      (name : string) (weights : dict R) :
  wf table ->
  calculate_tf_idf table document_frequencies total_documents = Ok out ->
  get out name = Some weights ->
  exists token_counts,
    In (name, token_counts) table
    /\ score_document document_frequencies total_documents token_counts
       = Ok weights.
Proof.
  intros Hwf H Hget.
  apply calculate_tf_idf_inv in H; [|exact Hwf].
  apply get_some_in in Hget.
  destruct (@Forall2_in_r _ _ _ _ _ _ H Hget) as ([name' tc] & Hin & Hname & Hscore).
  simpl in Hname, Hscore; subst name'.
  exists tc; auto.
Qed.

End Documents.

(** ** When the computation goes through *)

Lemma document_frequency_positive (table : dict (dict Z)) (name token : string)
      (token_counts : dict Z) :
  Forall wf (values table) ->
  In (name, token_counts) table -> In token (keys token_counts) ->
  1 <= counter_get (calculate_document_frequencies table) token.
Proof.
  intros Hall Hin Hkey.
  unfold calculate_document_frequencies.
  rewrite count_documents by exact Hall.
  pose proof (@documents_containing_pos token table name token_counts Hin Hkey)
    as Hpos.
  unfold documents_containing in Hpos.
  change (counter_get [] token) with 0; lia.
Qed.

Section Success.

Local Open Scope R_scope.

Variables (document_frequencies : dict Z) (total_documents : Z).

Lemma score_loop_ok (total_terms : Z) (items : dict Z) :
  total_terms <> 0%Z ->
  Forall (fun item =>
            0 < 1 + IZR (snd item) / IZR total_terms
            /\ counter_get document_frequencies (fst item) <> 0%Z
            /\ 0 < IZR total_documents
                   / IZR (counter_get document_frequencies (fst item)))
         items ->
  forall state, exists state',
    for_each (score_token document_frequencies total_documents total_terms)
             items state = Ok state'.
Proof.
  intros Htotal; induction 1 as [|[token count] items (Htf & Hdf & Hidf) _ IH];
    intros [scores s]; simpl.
  - eexists; reflexivity.
  - simpl in Htf, Hdf, Hidf.
    rewrite tf_ok by assumption; simpl.
    rewrite idf_ok by assumption; simpl.
    apply IH.
Qed.

(** A document of positive counts, all of whose tokens have a positive
    document frequency, is scored without an exception. *)
Lemma score_document_ok (token_counts : dict Z) :
  wf token_counts ->
  Forall (fun count => (1 <= count)%Z) (values token_counts) ->
  Forall (fun token => (0 < counter_get document_frequencies token)%Z)
         (keys token_counts) ->
  (0 < total_documents)%Z ->
  exists weights,
    score_document document_frequencies total_documents token_counts
    = Ok weights.
Proof.
  intros Hwf Hcounts Hdf HN.
  destruct token_counts as [|item rest] eqn:E.
  { exists []; apply score_document_empty. }
  rewrite <- E in *.
  assert (Hnonneg : Forall (fun n => (0 <= n)%Z) (values token_counts)).
  { eapply Forall_impl; [|exact Hcounts]; simpl; intros; lia. }
  assert (Htotal : (1 <= sum_values token_counts)%Z).
  { destruct item as [k c].
    assert (Hin : In (k, c) token_counts) by (rewrite E; left; reflexivity).
    pose proof (@count_le_sum_values _ _ _ Hnonneg Hin).
    rewrite Forall_forall in Hcounts.
    specialize (Hcounts c (in_map snd _ _ Hin)); lia. }
  destruct (@score_loop_ok (sum_values token_counts) token_counts) with (state := (@nil (string * R), 0))
    as [state Hloop].
  - lia.
  - rewrite Forall_forall; intros [t c] Hin; simpl.
    rewrite Forall_forall in Hcounts, Hdf.
    specialize (Hcounts c (in_map snd _ _ Hin)).
    specialize (Hdf t (in_map fst _ _ Hin)).
    repeat split.
    + assert (0 < IZR c / IZR (sum_values token_counts))
        by (apply IZR_div_pos; lia).
      lra.
    + lia.
    + apply IZR_div_pos; lia.
  - eexists; apply (@score_document_of_loop _ _ _ _ Hwf Hloop).
Qed.

Lemma calculate_tf_idf_ok (table : dict (dict Z)) :
  (forall name token_counts,
      In (name, token_counts) table ->
      exists weights,
        score_document document_frequencies total_documents token_counts
        = Ok weights) ->
  exists out,
    calculate_tf_idf table document_frequencies total_documents = Ok out.
Proof.
  unfold calculate_tf_idf; generalize (@nil (string * dict R)) as acc.
  induction table as [|[name tc] table IH]; intros acc Hall; simpl.
  - eexists; reflexivity.
  - destruct (Hall name tc) as [weights ->]; [left; reflexivity|]; simpl.
    apply IH; intros n t Hin; apply (Hall n t); right; exact Hin.
Qed.

End Success.

(** On a table of positive counts, with the document frequencies and the
    number of documents taken from the table itself as
    [main_process_text_files] does, [calculate_tf_idf] returns a result. *)
Lemma corpus_is_scored (table : dict (dict Z)) :
  wf_table table ->
  Forall (fun token_counts => Forall (fun count => 1 <= count) (values token_counts))
         (values table) ->
  exists out,
    calculate_tf_idf table (calculate_document_frequencies table)
                     (Z.of_nat (List.length table)) = Ok out.
Proof.
  intros [Hwf Hall] Hcounts.
  apply calculate_tf_idf_ok; intros name tc Hin.
  rewrite Forall_forall in Hall, Hcounts.
  pose proof (in_map snd _ _ Hin) as Hv; simpl in Hv.
  apply score_document_ok.
  - apply Hall, Hv.
  - apply Hcounts, Hv.
  - rewrite Forall_forall; intros t Ht.
    pose proof (@document_frequency_positive table name t tc) as Hpos.
    rewrite <- Forall_forall in Hall; specialize (Hpos Hall Hin Ht); lia.
  - destruct table; [destruct Hin | simpl List.length; lia].
Qed.

(** ** The claims on the weights *)

Lemma wf_table_in {V} (table : dict (dict V)) (name : string) (d : dict V) :
  wf_table table -> In (name, d) table -> wf d.
Proof.
  intros [_ Hall] Hin; rewrite Forall_forall in Hall.
  apply Hall; apply (in_map snd) in Hin; exact Hin.
Qed.

(** Reading a dict back key by key gives the dict. *)
Lemma items_by_key {V} (default : V) (d : dict V) :
  wf d ->
  map (fun k => (k, match get d k with Some v => v | None => default end))
      (keys d) = d.
Proof.
  unfold wf; induction d as [|[k v] rest IH]; simpl; intros Hnd; [reflexivity|].
  inversion Hnd as [|? ? Hnot Hnd']; subst.
  rewrite String.eqb_refl; f_equal.
  rewrite <- (IH Hnd') at 2.
  apply map_ext_in; intros k' Hk'.
  destruct (String.eqb k k') eqn:E; [|reflexivity].
  apply String.eqb_eq in E; subst k'; contradiction.
Qed.

(** Line 165 copies the scores of a document under the keys of its table. *)
Lemma filtered_tf_idf_scores_same (tf_idf_scores : dict (dict R))
      (file_name : string) (token_counts : dict Z) (weights : dict R) :
  get tf_idf_scores file_name = Some weights ->
  wf weights -> keys weights = keys token_counts ->
  filtered_tf_idf_scores tf_idf_scores file_name token_counts = Ok weights.
Proof.
  intros Hget Hwf Hkeys; unfold filtered_tf_idf_scores.
  rewrite <- Hkeys.
  rewrite <- (items_by_key 0%R Hwf) at 2.
  apply comprehension_distinct.
  - intros token Hin; unfold item; rewrite Hget; simpl.
    destruct (get weights token) eqn:E; [reflexivity|].
    apply get_none in E; contradiction.
  - rewrite map_map; simpl; rewrite map_id; exact Hwf.
Qed.

(** The weight stored for a token of a scored document is the product of its
    term frequency and its inverse document frequency, both as computed in
    the turn of the token, over the Euclidean length of the raw scores of the
    document. *)
Lemma scored_token_weight (table : dict (dict Z)) (document_frequencies : dict Z)
      (total_documents : Z) (out : dict (dict R)) (name : string)
      (token_counts : dict Z) (token : string) (count : Z) :
  wf_table table ->
  calculate_tf_idf table document_frequencies total_documents = Ok out ->
  In (name, token_counts) table -> In (token, count) token_counts ->
  exists tf_value idf_value weights,
    tf count (sum_values token_counts) = Ok tf_value
    /\ idf total_documents (counter_get document_frequencies token)
       = Ok idf_value
    /\ get out name = Some weights
    /\ get weights token
       = Some (tf_value * idf_value
               / sqrt (sum_squares
                         (raw_scores document_frequencies total_documents
                                     token_counts)))%R.
Proof.
  intros Hwft Hcalc Hdoc Hitem.
  destruct (@calculate_tf_idf_get _ _ _ _ _ _ (proj1 Hwft) Hcalc Hdoc)
    as (weights & Hget & Hscore).
  pose proof (wf_table_in _ _ Hwft Hdoc) as Hwf.
  pose proof Hscore as Hloop; unfold score_document in Hloop.
  apply bind_ok in Hloop as (state & Hloop & _).
  apply score_loop_items_computed in Hloop.
  rewrite Forall_forall in Hloop.
  destruct (Hloop _ Hitem) as (tfv & idfv & Htf & Hidf); simpl in Htf, Hidf.
  exists tfv, idfv, weights.
  split; [exact Htf|]; split; [exact Hidf|]; split; [exact Hget|].
  destruct (@score_document_inv _ _ _ _ Hwf Hscore) as (Hw & _ & _).
  apply get_in.
  - unfold wf; rewrite (@score_document_keys _ _ _ _ Hwf Hscore); exact Hwf.
  - apply tf_inv in Htf as (_ & _ & Etf).
    apply idf_inv in Hidf as (_ & _ & Eidf).
    rewrite Hw, Etf, Eidf.
    apply in_map_iff.
    exists (scored_item document_frequencies total_documents
                        (sum_values token_counts) (token, count)).
    split; [reflexivity|].
    unfold raw_scores; apply in_map; exact Hitem.
Qed.

Lemma idf_of_all_documents (total_documents : Z) :
  0 < total_documents -> idf total_documents total_documents = Ok 1%R.
Proof.
  intros HN; rewrite idf_ok; [|lia|apply IZR_div_pos; lia].
  rewrite Z.eqb_refl; f_equal.
  rewrite IZR_div_same by lia; rewrite ln_1; lra.
Qed.

(** C3. For every token of a document that [calculate_tf_idf] has scored, the
    inverse document frequency computed in the turn of the token, from the
    document frequency [df] that the counter gives for it and the number of
    documents [N], is [ln (N / df) + 1] when [df] equals [N], and it is 1
    then, and [ln (N / df)] otherwise; the weight stored for the token is its
    term frequency times that value, over the norm.  In a corpus of a single
    document, with the document frequencies counted from it, every token of
    the document has document frequency 1 and inverse document frequency 1. *)
Theorem idf_formula :
  (forall (table : dict (dict Z)) (document_frequencies : dict Z)
          (total_documents : Z) (out : dict (dict R)) (name : string)
          (token_counts : dict Z) (token : string) (count : Z),
      wf_table table ->
      calculate_tf_idf table document_frequencies total_documents = Ok out ->
      In (name, token_counts) table -> In (token, count) token_counts ->
      let df_token := counter_get document_frequencies token in
      exists idf_value weights,
        idf total_documents df_token = Ok idf_value
        /\ (df_token = total_documents ->
            idf_value = (ln (IZR total_documents / IZR df_token) + 1)%R
            /\ idf_value = 1%R)
        /\ (df_token <> total_documents ->
            idf_value = ln (IZR total_documents / IZR df_token))
        /\ get out name = Some weights
        /\ get weights token
           = Some (ln (1 + IZR count / IZR (sum_values token_counts))
                   * idf_value
                   / sqrt (sum_squares
                             (raw_scores document_frequencies total_documents
                                         token_counts)))%R)
  /\ (forall (name : string) (token_counts : dict Z) (token : string),
         wf token_counts -> In token (keys token_counts) ->
         let table := [(name, token_counts)] in
         Z.of_nat (List.length table) = 1
         /\ counter_get (calculate_document_frequencies table) token = 1
         /\ idf (Z.of_nat (List.length table))
                (counter_get (calculate_document_frequencies table) token)
            = Ok 1%R).
Proof.
  split.
  - intros table df N out name tc token count Hwft Hcalc Hdoc Hitem df_token.
    destruct (@scored_token_weight _ _ _ _ _ _ _ _ Hwft Hcalc Hdoc Hitem)
      as (tfv & idfv & weights & Htf & Hidf & Hget & Hweight).
    fold df_token in Hidf.
    exists idfv, weights.
    split; [exact Hidf|].
    pose proof (idf_inv _ _ Hidf) as (Hne & _ & Eidf).
    apply tf_inv in Htf as (_ & _ & Etf).
    split; [|split; [|split; [exact Hget | rewrite <- Etf; exact Hweight]]].
    + intros Heq; rewrite <- Heq, Z.eqb_refl in Eidf.
      rewrite <- Heq; split; [exact Eidf|].
      rewrite Eidf, IZR_div_same by exact Hne; rewrite ln_1; lra.
    + intros Hdiff.
      destruct (Z.eqb_spec N df_token); [congruence | exact Eidf].
  - intros name tc token Hwf Hkey table.
    assert (Hdf : counter_get (calculate_document_frequencies table) token = 1).
    { unfold calculate_document_frequencies, table.
      rewrite count_documents by (repeat constructor; exact Hwf).
      simpl filter; rewrite (proj2 (mem_in tc token) Hkey); reflexivity. }
    split; [reflexivity|]; split; [exact Hdf|].
    rewrite Hdf; apply idf_of_all_documents; reflexivity.
Qed.

(** C4 (amended). For every token, of count [c], of a document of
    non-negative counts that [calculate_tf_idf] has scored, the term
    frequency computed in the turn of the token is
    [ln (1 + c / total_terms)], where [total_terms] is the sum of the counts
    of the document; it lies in the closed interval from 0 to [ln 2], and it
    is 0 for a count of 0.  The weight stored for the token is that value
    times the inverse document frequency, over the norm. *)
Theorem tf_formula_and_range (table : dict (dict Z))
        (document_frequencies : dict Z) (total_documents : Z)
        (out : dict (dict R)) (name : string) (token_counts : dict Z)
        (token : string) (count : Z) :
  wf_table table ->
  calculate_tf_idf table document_frequencies total_documents = Ok out ->
  In (name, token_counts) table ->
  Forall (fun n => 0 <= n) (values token_counts) ->
  In (token, count) token_counts ->
  let tf_value := ln (1 + IZR count / IZR (sum_values token_counts)) in
  tf count (sum_values token_counts) = Ok tf_value
  /\ (0 <= tf_value <= ln 2)%R
  /\ (count = 0 -> tf_value = 0%R)
  /\ exists idf_value weights,
      idf total_documents (counter_get document_frequencies token)
      = Ok idf_value
      /\ get out name = Some weights
      /\ get weights token
         = Some (tf_value * idf_value
                 / sqrt (sum_squares
                           (raw_scores document_frequencies total_documents
                                       token_counts)))%R.
Proof.
  intros Hwft Hcalc Hdoc Hcounts Hitem tf_value.
  destruct (@scored_token_weight _ _ _ _ _ _ _ _ Hwft Hcalc Hdoc Hitem)
    as (tfv & idfv & weights & Htf & Hidf & Hget & Hweight).
  pose proof (tf_inv _ _ Htf) as (Hne & _ & Etf).
  fold tf_value in Etf; subst tfv.
  pose proof (@sum_values_nonneg _ Hcounts) as Htotal.
  pose proof (@count_le_sum_values _ _ _ Hcounts Hitem) as Hle.
  assert (Hc : 0 <= count).
  { rewrite Forall_forall in Hcounts.
    apply (Hcounts count), (in_map snd _ _ Hitem). }
  assert (Hq : (0 <= IZR count / IZR (sum_values token_counts) <= 1)%R).
  { assert (Ht : (0 < IZR (sum_values token_counts))%R) by (apply IZR_lt; lia).
    split.
    - apply Rmult_le_pos; [apply IZR_le; exact Hc|].
      left; apply Rinv_0_lt_compat; exact Ht.
    - apply Rmult_le_reg_r with (r := IZR (sum_values token_counts));
        [exact Ht|].
      unfold Rdiv; rewrite Rmult_assoc, Rinv_l, Rmult_1_r, Rmult_1_l by lra.
      apply IZR_le; exact Hle. }
  split; [exact Htf|]; split; [|split].
  - unfold tf_value; split.
    + rewrite <- ln_1; apply ln_le_compat; lra.
    + apply ln_le_compat; lra.
  - intros ->; unfold tf_value, Rdiv; rewrite Rmult_0_l, Rplus_0_r; apply ln_1.
  - exists idfv, weights; auto.
Qed.

(** No division is evaluated with a zero norm and a non-empty document: the
    first one raises. *)
Lemma zero_norm_division_raises :
  sum_squares [("cat", 0%R)] = 0%R
  /\ normalize [("cat", 0%R)] (sum_squares [("cat", 0%R)])
     = Raise ZeroDivisionError.
Proof.
  assert (H : sum_squares [("cat", 0%R)] = 0%R) by (simpl; ring).
  split; [exact H|].
  rewrite H; apply normalize_zero_norm; discriminate.
Qed.

(** C1 (amended). With a zero sum of squares, the normalisation of an empty
    document divides nothing and returns the empty dict, and that of any other
    document raises [ZeroDivisionError] at its first division; no fallback
    weight is defined.  Whenever a document is scored, each weight is the raw
    score divided by a norm that is positive unless the document is empty, so
    no weight comes from a division by zero. *)
Theorem zero_norm_is_raised_not_returned :
  normalize [] 0 = Ok []
  /\ (forall scores, scores <> [] -> normalize scores 0 = Raise ZeroDivisionError)
  /\ (forall document_frequencies total_documents token_counts weights,
         wf token_counts ->
         score_document document_frequencies total_documents token_counts
         = Ok weights ->
         let scores := raw_scores document_frequencies total_documents token_counts in
         weights
         = map (fun entry => (fst entry, (snd entry / sqrt (sum_squares scores))%R))
               scores
         /\ (token_counts <> [] -> (0 < sqrt (sum_squares scores))%R)).
Proof.
  split; [apply normalize_empty|].
  split; [apply normalize_zero_norm|].
  intros df N tc weights Hwf H scores.
  destruct (@score_document_inv df N tc weights Hwf H) as (Hw & Hpos & _).
  split; [exact Hw|].
  intros Hne; apply sqrt_lt_R0, Hpos, Hne.
Qed.


(** C7. The result has one entry per document of the table, in the same
    order, and the entry of a document has exactly the keys of its table, in
    the same order; the dict that is exported is that entry. *)
Theorem vocabulary_is_preserved (table : dict (dict Z))
        (document_frequencies : dict Z) (total_documents : Z)
        (out : dict (dict R)) :
  wf_table table ->
  calculate_tf_idf table document_frequencies total_documents = Ok out ->
  keys out = keys table
  /\ forall name token_counts,
      In (name, token_counts) table ->
      exists weights,
        get out name = Some weights
        /\ keys weights = keys token_counts
        /\ (forall token, In token (keys weights) <-> In token (keys token_counts))
        /\ filtered_tf_idf_scores out name token_counts = Ok weights.
Proof.
  intros Hwft Hcalc; split.
  - apply (@calculate_tf_idf_keys _ _ _ _ (proj1 Hwft) Hcalc).
  - intros name tc Hin.
    destruct (@calculate_tf_idf_get _ _ _ _ _ _ (proj1 Hwft) Hcalc Hin)
      as (weights & Hget & Hscore).
    pose proof (wf_table_in _ _ Hwft Hin) as Hwf.
    pose proof (@score_document_keys _ _ _ _ Hwf Hscore) as Hkeys.
    exists weights; split; [exact Hget|]; split; [exact Hkeys|]; split.
    + intros token; rewrite Hkeys; tauto.
    + apply filtered_tf_idf_scores_same; [exact Hget| |exact Hkeys].
      unfold wf; rewrite Hkeys; exact Hwf.
Qed.

(** C9. A document with an empty table is scored as the empty dict whatever
    the document frequencies and the number of documents are (nothing is
    divided), so is its entry in the result of the corpus, and the file
    written for it has no line. *)
Theorem empty_document_scores_empty :
  (forall document_frequencies total_documents,
      score_document document_frequencies total_documents [] = Ok [])
  /\ (forall table document_frequencies total_documents out name,
         wf table ->
         calculate_tf_idf table document_frequencies total_documents = Ok out ->
         In (name, []) table ->
         get out name = Some []
         /\ filtered_tf_idf_scores out name [] = Ok [])
  /\ sorted_by_term_weight [] = []
  /\ (forall export_folder export_file_name,
         get (export_sorted_counts export_folder [] export_file_name)
             (export_file_name ++ "_Sort_by_Term_Weight.wts")%string
         = Some []).
Proof.
  split; [intros; apply score_document_empty|].
  split; [|split; [reflexivity|]].
  - intros table df N out name Hwf Hcalc Hin.
    destruct (@calculate_tf_idf_get _ _ _ _ _ _ Hwf Hcalc Hin)
      as (weights & Hget & Hscore).
    rewrite score_document_empty in Hscore; injection Hscore as <-.
    split; [exact Hget | reflexivity].
  - intros export_folder export_file_name; unfold export_sorted_counts.
    apply get_set_same.
Qed.

(** ** The worked example *)


Lemma example_table_wf : wf_table example_table.
Proof.
  unfold wf_table, wf, example_table; simpl.
  repeat constructor; simpl; intuition discriminate.
Qed.

Lemma example_table_with_empty_wf : wf_table example_table_with_empty.
Proof.
  unfold wf_table, wf, example_table_with_empty; simpl.
  repeat constructor; simpl; intuition discriminate.
Qed.

Lemma example_table_scored :
  exists out,
    calculate_tf_idf example_table
                     (calculate_document_frequencies example_table) 1 = Ok out.
Proof.
  apply (corpus_is_scored example_table_wf).
  unfold example_table; forall_entries.
Qed.

Lemma example_table_with_empty_scored :
  exists out,
    calculate_tf_idf example_table_with_empty
                     (calculate_document_frequencies example_table_with_empty) 2
    = Ok out.
Proof.
  apply (corpus_is_scored example_table_with_empty_wf).
  unfold example_table_with_empty; forall_entries.
Qed.

(** A document all of whose tokens are stop words: its table is empty, and
    the run writes an empty file for it. *)
Example stopwords_only_document :
  main_process_text_files
    [("d_1.txt", ["the:5" ++ newline; "a:4" ++ newline]%string)] []
    ("the a" ++ newline)%string
  = Ok [("d_Sort_by_Term_Weight.wts", [])].
Proof.
  unfold main_process_text_files.
  replace (process_text_files _ _) with (@Ok (dict (dict Z)) [("d_1.txt", [])])
    by reflexivity.
  simpl Py.bind.
  unfold calculate_tf_idf; simpl for_each.
  rewrite score_document_empty; reflexivity.
Qed.

Lemma example_raw_score (count : Z) (token : string) :
  counter_get [("sat", 1); ("cat", 1)] token = 1 ->
  raw_score [("sat", 1); ("cat", 1)] 1 5 (token, count)
  = ln (1 + IZR count / 5).
Proof.
  intros Hdf; unfold raw_score; simpl fst; simpl snd; rewrite Hdf; simpl.
  replace (1 / 1)%R with 1%R by field.
  rewrite ln_1; ring.
Qed.

(** A whole run on a corpus of one document: the stop words are dropped, the
    two remaining tokens are weighted, and the file lists [cat] (three
    occurrences) before [sat] (two), though the input has them the other way
    round. *)
Example single_document_run :
  exists w_cat w_sat : R,
    main_process_text_files
      [("doc_1.txt",
        ["the:5" ++ newline; "sat:2" ++ newline; "cat:3" ++ newline;
         "a:4" ++ newline]%string)]
      [] ("the a" ++ newline)%string
    = Ok [("doc_Sort_by_Term_Weight.wts"%string,
           [("cat"%string, w_cat); ("sat"%string, w_sat)])]
    /\ (0 < w_sat < w_cat)%R.
Proof.
  set (counts := [("sat"%string, 2); ("cat"%string, 3)]).
  set (table := [("doc_1.txt"%string, counts)]).
  assert (Hwft : wf_table table).
  { unfold wf_table, wf, table, counts; simpl.
    repeat constructor; simpl; intuition discriminate. }
  assert (Hwf : wf counts) by (apply (wf_table_in _ _ Hwft (or_introl eq_refl))).
  destruct (@corpus_is_scored table Hwft) as [out Hout];
    [unfold table, counts; forall_entries|].
  pose proof (@calculate_tf_idf_inv _ _ _ _ (proj1 Hwft) Hout) as Hshape.
  inversion Hshape as [|doc [name weights] ? rest [Hname Hscore] Hrest]; subst.
  inversion Hrest; subst; simpl in Hname, Hscore; subst name.
  clear Hshape Hrest.
  destruct (@score_document_inv _ _ _ _ Hwf Hscore) as (Hw & Hpos & _).
  pose proof (@score_document_keys _ _ _ _ Hwf Hscore) as Hkeys.
  unfold main_process_text_files.
  replace (process_text_files _ _) with (@Ok (dict (dict Z)) table) by reflexivity.
  simpl Py.bind.
  change (Z.of_nat (List.length table)) with 1 in Hout; rewrite Hout; simpl Py.bind.
  rewrite (@filtered_tf_idf_scores_same _ _ _ weights);
    [|reflexivity|unfold wf; rewrite Hkeys; exact Hwf|exact Hkeys].
  simpl Py.bind; unfold export_sorted_counts; simpl set.
  specialize (Hpos ltac:(discriminate)); apply sqrt_lt_R0 in Hpos.
  revert Hw Hpos.
  replace (calculate_document_frequencies table)
    with [("sat"%string, 1); ("cat"%string, 1)] by reflexivity.
  unfold raw_scores, scored_item; change (sum_values counts) with 5.
  generalize
    (sqrt (sum_squares
             (map (fun item =>
                     (fst item,
                      raw_score [("sat"%string, 1); ("cat"%string, 1)] 1 5 item))
                  counts))).
  intros n -> Hn; simpl map.
  rewrite !example_raw_score by reflexivity.
  assert (Hlt : (0 < ln (1 + 2 / 5) < ln (1 + 3 / 5))%R).
  { split; [rewrite <- ln_1|]; apply ln_increasing; lra. }
  assert (Hw : (0 < ln (1 + 2 / 5) / n < ln (1 + 3 / 5) / n)%R).
  { split; [apply Rdiv_lt_0_compat; lra|].
    apply Rmult_lt_compat_r; [apply Rinv_0_lt_compat; exact Hn | lra]. }
  unfold sorted_by_term_weight; simpl.
  destruct (Rlt_dec _ _) as [_|Hno]; [|contradiction (Hno (proj2 Hw))].
  eexists _, _; split; [reflexivity | exact Hw].
Qed.

Lemma idf_formula_witness :
  exists out idf_value weights,
    calculate_tf_idf example_table
                     (calculate_document_frequencies example_table) 1 = Ok out
    /\ idf 1 (counter_get (calculate_document_frequencies example_table) "cat")
       = Ok idf_value
    /\ idf_value = 1%R
    /\ get out "doc_1.txt" = Some weights
    /\ get weights "cat"
       = Some (ln (1 + IZR 3 / IZR 5) * idf_value
               / sqrt (sum_squares
                         (raw_scores (calculate_document_frequencies example_table)
                                     1 example_counts)))%R.
Proof.
  destruct example_table_scored as [out Hout].
  destruct idf_formula as [Hscored _].
  destruct (Hscored example_table (calculate_document_frequencies example_table)
                    1 out "doc_1.txt"%string
                    [("cat"%string, 3); ("sat"%string, 2)] "cat"%string 3
                    example_table_wf Hout)
    as (idf_value & weights & Hidf & Hsame & _ & Hget & Hweight).
  - left; reflexivity.
  - left; reflexivity.
  - exists out, idf_value, weights.
    split; [exact Hout|]; split; [exact Hidf|].
    split; [apply Hsame; reflexivity|].
    split; [exact Hget | exact Hweight].
Defined.

Lemma tf_formula_and_range_witness :
  exists out,
    calculate_tf_idf example_table
                     (calculate_document_frequencies example_table) 1 = Ok out
    /\ tf 3 (sum_values example_counts)
       = Ok (ln (1 + IZR 3 / IZR (sum_values example_counts)))
    /\ (0 <= ln (1 + IZR 3 / IZR (sum_values example_counts)) <= ln 2)%R.
Proof.
  destruct example_table_scored as [out Hout].
  exists out; split; [exact Hout|].
  destruct (@tf_formula_and_range
              example_table (calculate_document_frequencies example_table) 1
              out "doc_1.txt"%string [("cat"%string, 3); ("sat"%string, 2)]
              "cat"%string 3 example_table_wf Hout)
    as (Htf & Hrange & _).
  - left; reflexivity.
  - forall_entries.
  - left; reflexivity.
  - split; [exact Htf | exact Hrange].
Defined.

Lemma zero_norm_is_raised_not_returned_witness :
  exists weights,
    score_document example_frequencies 1 example_counts = Ok weights
    /\ (0 < sqrt (sum_squares (raw_scores example_frequencies 1 example_counts)))%R.
Proof.
  assert (Hwf : wf example_counts).
  { unfold wf; simpl; repeat constructor; simpl; intuition discriminate. }
  destruct (@score_document_ok example_frequencies 1 example_counts)
    as [weights Hscore].
  - exact Hwf.
  - forall_entries.
  - forall_entries.
  - lia.
  - exists weights; split; [exact Hscore|].
    destruct zero_norm_is_raised_not_returned as (_ & _ & Hdoc).
    apply (Hdoc _ _ _ _ Hwf Hscore); discriminate.
Defined.


Lemma vocabulary_is_preserved_witness :
  exists out weights,
    calculate_tf_idf example_table
                     (calculate_document_frequencies example_table) 1 = Ok out
    /\ keys out = ["doc_1.txt"%string]
    /\ get out "doc_1.txt" = Some weights
    /\ keys weights = ["cat"%string; "sat"%string].
Proof.
  destruct example_table_scored as [out Hout].
  destruct (@vocabulary_is_preserved _ _ _ _ example_table_wf Hout)
    as [Hkeys Hdocs].
  destruct (Hdocs "doc_1.txt"%string [("cat"%string, 3); ("sat"%string, 2)])
    as (weights & Hget & Hk & _); [left; reflexivity|].
  exists out, weights; auto.
Defined.

Lemma empty_document_scores_empty_witness :
  exists out,
    calculate_tf_idf example_table_with_empty
                     (calculate_document_frequencies example_table_with_empty) 2
    = Ok out
    /\ get out "empty_2.txt" = Some []
    /\ filtered_tf_idf_scores out "empty_2.txt" [] = Ok [].
Proof.
  destruct example_table_with_empty_scored as [out Hout].
  destruct empty_document_scores_empty as (_ & Hcorpus & _).
  exists out; split; [exact Hout|].
  apply (Hcorpus _ _ _ _ _ (proj1 example_table_with_empty_wf) Hout).
  right; left; reflexivity.
Defined.

(** * Further properties *)

(** ** The stop list *)

Lemma split_whitespace_clean (s : string) :
  Forall (fun word => word <> EmptyString /\ no_space word = true)
         (split_whitespace s).
Proof.
  induction s as [|c rest IH]; simpl; [constructor|].
  destruct (Str.is_space c) eqn:Ec; [exact IH|].
  assert (Hone : String c EmptyString <> EmptyString
                 /\ no_space (String c EmptyString) = true).
  { split; [discriminate|]; unfold no_space; simpl; rewrite Ec; reflexivity. }
  destruct rest as [|c' rest']; [repeat constructor; apply Hone|].
  destruct (Str.is_space c') eqn:Ec'; [constructor; [apply Hone | exact IH]|].
  destruct (split_whitespace (String c' rest')) as [|word words];
    [repeat constructor; apply Hone|].
  inversion IH as [|? ? [Hne Hword] Hwords]; subst.
  constructor; [|exact Hwords].
  split; [discriminate|].
  unfold no_space in *; simpl; rewrite Ec, Hword; reflexivity.
Qed.

Lemma split_whitespace_word (word rest : string) (sep : ascii) :
  word <> EmptyString -> no_space word = true -> Str.is_space sep = true ->
  split_whitespace (word ++ String sep rest) = word :: split_whitespace rest.
Proof.
  intros Hne Hword Hsep; induction word as [|c word IH]; [congruence|].
  unfold no_space in Hword; simpl in Hword.
  apply andb_true_iff in Hword as [Hc Hword]; apply negb_true_iff in Hc.
  change ((String c word ++ String sep rest)%string)
    with (String c (word ++ String sep rest)).
  destruct word as [|c' word'].
  - simpl; rewrite Hc, Hsep; reflexivity.
  - assert (Hc' : Str.is_space c' = false).
    { simpl in Hword; apply andb_true_iff in Hword as [H _].
      apply negb_true_iff in H; exact H. }
    specialize (IH ltac:(discriminate) Hword).
    change (split_whitespace (String c (String c' word' ++ String sep rest)))
      with (if Str.is_space c
            then split_whitespace (String c' word' ++ String sep rest)
            else if Str.is_space c'
                 then String c EmptyString
                      :: split_whitespace (String c' word' ++ String sep rest)
                 else match split_whitespace (String c' word' ++ String sep rest) with
                      | w :: ws => String c w :: ws
                      | [] => [String c EmptyString]
                      end).
    rewrite Hc, Hc', IH; reflexivity.
Qed.

(** X1. The stop list holds no empty word and no word with a whitespace
    character, and a list of such words written out with one whitespace
    character after each is read back as it is. *)
Theorem load_stoplist_words (contents : string) :
  Forall (fun word => word <> EmptyString /\ no_space word = true)
         (load_stoplist contents)
  /\ (forall (sep : ascii) (words : list string),
         Str.is_space sep = true ->
         Forall (fun word => word <> EmptyString /\ no_space word = true) words ->
         load_stoplist (join_words sep words) = words).
Proof.
  split; [apply split_whitespace_clean|].
  intros sep words Hsep Hall; unfold load_stoplist.
  induction Hall as [|word words [Hne Hword] _ IH]; [reflexivity|].
  simpl join_words; rewrite split_whitespace_word by assumption.
  rewrite IH; reflexivity.
Qed.

Example load_stoplist_example :
  load_stoplist ("the a" ++ newline ++ "  of" ++ newline)%string = ["the"; "a"; "of"]%string.
Proof. reflexivity. Qed.

Lemma load_stoplist_words_witness :
  load_stoplist (join_words " " ["the"; "a"; "of"]%string) = ["the"; "a"; "of"]%string.
Proof.
  apply (proj2 (load_stoplist_words EmptyString)); [reflexivity|].
  repeat constructor; discriminate.
Defined.

(** ** The loader *)

Lemma keys_set_in {V} (d : dict V) (k x : string) (v : V) :
  In x (keys (set d k v)) <-> In x (keys d) \/ x = k.
Proof.
  destruct (in_dec string_dec k (keys d)) as [Hin|Hnot].
  - rewrite keys_set_present by exact Hin.
    split; [auto|]; intros [H | ->]; assumption.
  - rewrite set_absent by exact Hnot.
    unfold keys; rewrite map_app, in_app_iff; simpl.
    split.
    + intros [H|[<-|[]]]; auto.
    + intros [H | ->]; auto.
Qed.

Lemma for_each_invariant {S X} (Inv : S -> Prop) (body : S -> X -> result S)
      (xs : list X) :
  (forall s x s', Inv s -> body s x = Ok s' -> Inv s') ->
  forall s s', Inv s -> for_each body xs s = Ok s' -> Inv s'.
Proof.
  intros Hbody; induction xs as [|x xs IH]; simpl; intros s s' Hs H.
  - injection H as <-; exact Hs.
  - apply bind_ok in H as (s1 & H1 & H2); eauto.
Qed.

Lemma process_line_keys (excluded_tokens : list string) (tc tc' : dict Z)
      (line token : string) :
  process_line excluded_tokens tc line = Ok tc' ->
  In token (keys tc') ->
  In token (keys tc)
  \/ (in_set token excluded_tokens = false /\ (1 < String.length token)%nat).
Proof.
  unfold process_line.
  destruct (List.length _ =? 2)%nat; [|intros H; injection H as <-; auto].
  destruct (Str.int _) as [n|e]; simpl; [|discriminate].
  destruct (negb (in_set _ excluded_tokens) && _) eqn:E;
    intros H; injection H as <-; [|auto].
  unfold counter_add; rewrite keys_set_in; intros [Hin | ->]; [auto|right].
  apply andb_true_iff in E as [Hex Hlen].
  apply negb_true_iff in Hex; apply Nat.ltb_lt in Hlen; auto.
Qed.

Lemma process_text_file_keys (excluded_tokens : list string) (file : text_file)
      (tc : dict Z) :
  process_text_file excluded_tokens file = Ok tc ->
  Forall (fun token =>
            in_set token excluded_tokens = false /\ (1 < String.length token)%nat)
         (keys tc).
Proof.
  unfold process_text_file.
  apply for_each_invariant
    with (Inv := fun d : dict Z =>
                   Forall (fun token =>
                             in_set token excluded_tokens = false
                             /\ (1 < String.length token)%nat) (keys d)).
  - intros d line d' Hd Hline; rewrite Forall_forall in *; intros token Hin.
    destruct (process_line_keys _ _ _ _ Hline Hin) as [Hold|Hnew]; auto.
  - constructor.
Qed.

Lemma get_set_cases {V} (d : dict V) (k k' : string) (v : V) :
  get (set d k v) k' = if String.eqb k k' then Some v else get d k'.
Proof.
  destruct (String.eqb k k') eqn:E.
  - apply String.eqb_eq in E; subst; apply get_set_same.
  - apply String.eqb_neq in E; apply get_set_other; exact E.
Qed.

(** X2. No table the loader returns holds a stop word or a token of fewer
    than two characters. *)
Theorem loader_excludes_stopwords_and_short_tokens (import_folder : folder)
        (excluded_tokens : list string) (table : dict (dict Z))
        (name token : string) (token_counts : dict Z) :
  process_text_files import_folder excluded_tokens = Ok table ->
  In (name, token_counts) table ->
  In token (keys token_counts) ->
  in_set token excluded_tokens = false /\ (2 <= String.length token)%nat.
Proof.
  intros Hload Hin Htoken.
  assert (Hall : Forall (fun tc : dict Z =>
                           Forall (fun t => in_set t excluded_tokens = false
                                            /\ (1 < String.length t)%nat)
                                  (keys tc)) (values table)).
  { revert Hload; unfold process_text_files.
    apply for_each_invariant
      with (Inv := fun d : dict (dict Z) =>
                     Forall (fun tc : dict Z =>
                               Forall (fun t => in_set t excluded_tokens = false
                                                /\ (1 < String.length t)%nat)
                                      (keys tc)) (values d)).
    - intros d [n f] d' Hd; destruct (negb (Str.endswith n ".txt")).
      + intros H; injection H as <-; exact Hd.
      + intros H; apply bind_ok in H as (tc & Htc & H); injection H as <-.
        apply values_set_Forall; [exact Hd|].
        eapply process_text_file_keys; eassumption.
    - constructor. }
  rewrite Forall_forall in Hall.
  specialize (Hall token_counts (in_map snd _ _ Hin)).
  rewrite Forall_forall in Hall; destruct (Hall token Htoken); split; [auto|lia].
Qed.

Lemma loader_excludes_stopwords_and_short_tokens_witness :
  in_set "cat" ["the"; "a"]%string = false /\ (2 <= String.length "cat")%nat.
Proof.
  apply (@loader_excludes_stopwords_and_short_tokens
           [("d_1.txt", ["the:5" ++ newline; "x:1" ++ newline; "cat:3"]%string)]
           ["the"; "a"]%string
           [("d_1.txt", [("cat", 3)])]%string
           "d_1.txt"%string "cat"%string [("cat"%string, 3)]).
  - reflexivity.
  - left; reflexivity.
  - left; reflexivity.
Defined.

(** What a line adds to a counter does not depend on the counter. *)
Lemma process_line_shift (excluded_tokens : list string) (a a' b : dict Z)
      (line : string) :
  process_line excluded_tokens a line = Ok a' ->
  exists b',
    process_line excluded_tokens b line = Ok b'
    /\ forall token,
        counter_get b' token
        = counter_get b token + (counter_get a' token - counter_get a token).
Proof.
  unfold process_line.
  destruct (List.length _ =? 2)%nat.
  2:{ intros H; injection H as <-; exists b; split; [reflexivity|intros; lia]. }
  destruct (Str.int _) as [n|e]; simpl; [|discriminate].
  destruct (negb (in_set _ excluded_tokens) && _);
    intros H; injection H as <-; eexists; split; try reflexivity.
  - intros token; rewrite !counter_get_add.
    destruct (String.eqb _ token) eqn:E; [|lia].
    apply String.eqb_eq in E; rewrite E; lia.
  - intros; lia.
Qed.

Lemma process_lines_shift (excluded_tokens : list string) (file : text_file) :
  forall a a' b,
    for_each (process_line excluded_tokens) file a = Ok a' ->
    exists b',
      for_each (process_line excluded_tokens) file b = Ok b'
      /\ forall token,
          counter_get b' token
          = counter_get b token + (counter_get a' token - counter_get a token).
Proof.
  induction file as [|line file IH]; simpl; intros a a' b H.
  - injection H as <-; exists b; split; [reflexivity|intros; lia].
  - apply bind_ok in H as (a1 & Hline & Hrest).
    destruct (process_line_shift _ _ b _ Hline) as (b1 & Hb1 & Hshift1).
    destruct (IH _ _ b1 Hrest) as (b' & Hb' & Hshift).
    exists b'; rewrite Hb1; simpl; split; [exact Hb'|].
    intros token; rewrite Hshift, Hshift1; lia.
Qed.

(** X3. The counts of a file made of two pieces are the sums of the counts of
    the pieces. *)
Theorem loader_counts_are_additive (excluded_tokens : list string)
        (file1 file2 : text_file) (counts1 counts2 : dict Z) :
  process_text_file excluded_tokens file1 = Ok counts1 ->
  process_text_file excluded_tokens file2 = Ok counts2 ->
  exists counts,
    process_text_file excluded_tokens (file1 ++ file2) = Ok counts
    /\ forall token,
        counter_get counts token
        = counter_get counts1 token + counter_get counts2 token.
Proof.
  unfold process_text_file; intros H1 H2.
  destruct (@process_lines_shift _ _ _ _ counts1 H2) as (counts & Hc & Hshift).
  exists counts; rewrite for_each_app, H1; simpl; split; [exact Hc|].
  intros token; rewrite Hshift; change (counter_get [] token) with 0; lia.
Qed.

Lemma loader_counts_are_additive_witness :
  exists counts,
    process_text_file ["the"]%string
      (["cat:3" ++ newline; "sat:2" ++ newline]%string ++ ["the:9"; "cat: 4"]%string)
    = Ok counts
    /\ counter_get counts "cat" = 7.
Proof.
  destruct (@loader_counts_are_additive ["the"]%string
              ["cat:3" ++ newline; "sat:2" ++ newline]%string
              ["the:9"; "cat: 4"]%string
              [("cat", 3); ("sat", 2)]%string [("cat", 4)]%string
              eq_refl eq_refl) as (counts & Hc & Hsum).
  exists counts; split; [exact Hc|].
  rewrite Hsum; reflexivity.
Defined.

(** X4. A file whose name does not end in [.txt] is not read: the run over a
    folder that lists it is the run over the folder without it, whatever its
    lines are. *)
Theorem other_files_are_not_read (excluded_tokens : list string)
        (pre post : folder) (name : string) (file : text_file) :
  Str.endswith name ".txt" = false ->
  process_text_files (pre ++ (name, file) :: post) excluded_tokens
  = process_text_files (pre ++ post) excluded_tokens.
Proof.
  intros Hname; unfold process_text_files.
  rewrite !for_each_app.
  match goal with
  | |- Py.bind ?m _ = _ => destruct m as [table|e]; simpl; [|reflexivity]
  end.
  rewrite Hname; reflexivity.
Qed.

Lemma other_files_are_not_read_witness :
  process_text_files
    ([("a_1.txt", ["cat:3"]%string)]
       ++ ("notes.md", ["cat: dog"]%string) :: [("b_2.txt", ["sat:2"]%string)])
    []
  = Ok [("a_1.txt", [("cat", 3)]); ("b_2.txt", [("sat", 2)])]%string.
Proof.
  rewrite (@other_files_are_not_read [] _ _ "notes.md"%string
             ["cat: dog"%string] eq_refl).
  reflexivity.
Defined.

Lemma process_text_files_from (excluded_tokens : list string)
      (import_folder : folder) :
  forall acc table,
    NoDup (keys acc ++ map fst import_folder) ->
    for_each
      (fun individual_file_count '(import_file_name, file) =>
         if negb (Str.endswith import_file_name ".txt")
         then Ok individual_file_count
         else
           token_count <- process_text_file excluded_tokens file ;;
           Ok (set individual_file_count import_file_name token_count))
      import_folder acc = Ok table ->
    keys table
    = keys acc
      ++ filter (fun name => Str.endswith name ".txt") (map fst import_folder).
Proof.
  induction import_folder as [|[name file] rest IH]; simpl; intros acc table Hnd H.
  - injection H as <-; rewrite app_nil_r; reflexivity.
  - apply bind_ok in H as (acc' & Hbody & Hrest).
    destruct (Str.endswith name ".txt"); simpl in Hbody.
    + apply bind_ok in Hbody as (tc & _ & Hset); injection Hset as <-.
      assert (Hnew : ~ In name (keys acc)).
      { intros Hin; apply NoDup_remove_2 in Hnd; apply Hnd.
        apply in_or_app; left; exact Hin. }
      rewrite set_absent in Hrest by exact Hnew.
      apply IH in Hrest.
      * rewrite Hrest; unfold keys; rewrite map_app, <- app_assoc; reflexivity.
      * unfold keys; rewrite map_app; simpl.
        apply NoDup_app_swap_cons; exact Hnd.
    + injection Hbody as <-; apply IH in Hrest; [exact Hrest|].
      apply NoDup_remove_1 in Hnd; exact Hnd.
Qed.

(** X5. Over a listing of distinct names, the table has one entry per name
    ending in [.txt], in the order of the listing; so the number of documents
    is the number of such names. *)
Theorem loader_documents_are_the_txt_files (import_folder : folder)
        (excluded_tokens : list string) (table : dict (dict Z)) :
  NoDup (map fst import_folder) ->
  process_text_files import_folder excluded_tokens = Ok table ->
  keys table
  = filter (fun name => Str.endswith name ".txt") (map fst import_folder)
  /\ List.length table
     = List.length
         (filter (fun name => Str.endswith name ".txt") (map fst import_folder)).
Proof.
  intros Hnd H.
  apply process_text_files_from in H; [|exact Hnd].
  simpl in H; split; [exact H|].
  rewrite <- H; unfold keys; rewrite length_map; reflexivity.
Qed.

Lemma loader_documents_are_the_txt_files_witness :
  keys [("a_1.txt", [("cat", 3)]); ("b_2.txt", [])]%string
  = ["a_1.txt"; "b_2.txt"]%string.
Proof.
  apply (@loader_documents_are_the_txt_files
           [("a_1.txt", ["cat:3"]%string); ("notes.md", ["cat: dog"]%string);
            ("b_2.txt", ["the:2"]%string)]
           ["the"]%string
           [("a_1.txt", [("cat", 3)]); ("b_2.txt", [])]%string).
  - simpl; repeat constructor; simpl; intuition discriminate.
  - reflexivity.
Defined.

(** A loop whose body goes through on an item or not whatever the state, goes
    through exactly when it does on every item. *)
Lemma for_each_succeeds {S X} (Good : X -> Prop) (body : S -> X -> result S) :
  (forall s x, (exists s', body s x = Ok s') <-> Good x) ->
  forall xs s, (exists s', for_each body xs s = Ok s') <-> Forall Good xs.
Proof.
  intros Hbody; induction xs as [|x xs IH]; intros s; simpl.
  - split; [constructor | eexists; reflexivity].
  - split.
    + intros [s' H]; apply bind_ok in H as (s1 & H1 & H2); constructor.
      * apply (Hbody s x); exists s1; exact H1.
      * apply (IH s1); exists s'; exact H2.
    + intros Hall; inversion Hall as [|? ? Hx Hxs]; subst.
      apply (Hbody s x) in Hx as [s1 H1]; rewrite H1; simpl.
      apply IH; exact Hxs.
Qed.

Lemma process_line_succeeds (excluded_tokens : list string) (tc : dict Z)
      (line : string) :
  (exists tc', process_line excluded_tokens tc line = Ok tc')
  <-> line_loads line = true.
Proof.
  unfold process_line, line_loads, line_parts.
  destruct (List.length _ =? 2)%nat; [|split; [reflexivity | eexists; reflexivity]].
  destruct (Str.int _) as [n|e]; simpl.
  - split; [reflexivity|]; intros _.
    destruct (negb (in_set _ excluded_tokens) && _); eexists; reflexivity.
  - split; [intros [tc' H]; discriminate | discriminate].
Qed.

(** X6. The loader returns a table exactly when, in every file whose name
    ends in [.txt], every line that splits into two parts has an integer
    literal as its second part; the stop list plays no part in this. *)
Theorem loader_succeeds_iff (import_folder : folder)
        (excluded_tokens : list string) :
  (exists table, process_text_files import_folder excluded_tokens = Ok table)
  <-> Forall (fun entry =>
                Str.endswith (fst entry) ".txt" = true ->
                Forall (fun line => line_loads line = true) (snd entry))
             import_folder.
Proof.
  unfold process_text_files; apply for_each_succeeds.
  intros acc [name file]; simpl.
  destruct (Str.endswith name ".txt"); simpl.
  - pose proof (@for_each_succeeds (dict Z) string
                  (fun line => line_loads line = true)
                  (process_line excluded_tokens)
                  (fun s x => process_line_succeeds excluded_tokens s x)
                  file []) as Hfile.
    unfold process_text_file; split.
    + intros [table H] _; apply Hfile.
      apply bind_ok in H as (tc & Htc & _); exists tc; exact Htc.
    + intros Hall; apply Hfile in Hall as [tc Htc]; [|reflexivity].
      rewrite Htc; eexists; reflexivity.
  - split; [intros _ H; discriminate | eexists; reflexivity].
Qed.

Lemma loader_succeeds_iff_witness :
  exists table,
    process_text_files
      [("a_1.txt", ["cat:3"; "badline"; "a:b:c"; "the: -1_0"]%string);
       ("notes.md", ["cat: dog"]%string)]
      ["the"]%string
    = Ok table.
Proof.
  apply (proj2 (loader_succeeds_iff _ _)).
  repeat constructor; simpl; discriminate.
Defined.

(** ** The export *)

Section SortedExport.

Local Open Scope R_scope.

Local Abbreviation at_least := (fun a b : string * R => snd b <= snd a).

Lemma insert_by_weight_perm (x : string * R) (l : list (string * R)) :
  Permutation (x :: l) (insert_by_weight x l).
Proof.
  induction l as [|y rest IH]; simpl; [reflexivity|].
  destruct (Rlt_dec (snd x) (snd y)); [|reflexivity].
  rewrite perm_swap; constructor; exact IH.
Qed.

Lemma insert_by_weight_in (x y : string * R) (l : list (string * R)) :
  In y (insert_by_weight x l) -> y = x \/ In y l.
Proof.
  intros Hin.
  apply (Permutation_in _ (Permutation_sym (insert_by_weight_perm x l))) in Hin.
  destruct Hin as [<-|Hin]; auto.
Qed.

Lemma insert_by_weight_sorted (x : string * R) (l : list (string * R)) :
  StronglySorted at_least l -> StronglySorted at_least (insert_by_weight x l).
Proof.
  induction 1 as [|y rest Hrest IH Hy]; simpl.
  - repeat constructor.
  - destruct (Rlt_dec (snd x) (snd y)) as [Hlt|Hge].
    + constructor; [exact IH|].
      rewrite Forall_forall in *; intros z Hz.
      apply insert_by_weight_in in Hz as [-> | Hz]; [lra | apply Hy, Hz].
    + constructor; [constructor; assumption|].
      constructor; [lra|].
      rewrite Forall_forall in *; intros z Hz; specialize (Hy z Hz); simpl in *; lra.
Qed.

Lemma insert_by_weight_filter (w : R) (x : string * R) (l : list (string * R)) :
  filter (has_weight w) (insert_by_weight x l)
  = filter (has_weight w) (x :: l).
Proof.
  induction l as [|y rest IH]; [reflexivity|].
  simpl insert_by_weight.
  destruct (Rlt_dec (snd x) (snd y)) as [Hlt|Hge]; [|reflexivity].
  simpl in *; rewrite IH.
  unfold has_weight.
  destruct (Req_dec_T (snd x) w), (Req_dec_T (snd y) w); try reflexivity.
  lra.
Qed.

End SortedExport.

(** X7. The lines of an output file are the entries of the document, each
    once, in order of non-increasing weight. *)
Theorem export_is_sorted_permutation (token_tf_idf : dict R) :
  Permutation token_tf_idf (sorted_by_term_weight token_tf_idf)
  /\ StronglySorted (fun a b => (snd b <= snd a)%R)
                    (sorted_by_term_weight token_tf_idf).
Proof.
  unfold sorted_by_term_weight; induction token_tf_idf as [|x rest [IHp IHs]].
  - split; constructor.
  - simpl; split.
    + rewrite <- insert_by_weight_perm; constructor; exact IHp.
    + apply insert_by_weight_sorted; exact IHs.
Qed.

(** X8. The sort is stable: the entries of any one weight come out in the
    order the dict has them. *)
Theorem export_keeps_order_of_ties (token_tf_idf : dict R) (w : R) :
  filter (has_weight w) (sorted_by_term_weight token_tf_idf)
  = filter (has_weight w) token_tf_idf.
Proof.
  unfold sorted_by_term_weight; induction token_tf_idf as [|x rest IH].
  - reflexivity.
  - simpl fold_right; rewrite insert_by_weight_filter.
    simpl; rewrite IH; reflexivity.
Qed.

Example export_order_example :
  sorted_by_term_weight [("a", 1%R); ("b", 2%R); ("c", 1%R); ("d", 2%R)]
  = [("b", 2%R); ("d", 2%R); ("a", 1%R); ("c", 1%R)].
Proof.
  unfold sorted_by_term_weight; simpl.
  repeat (destruct (Rlt_dec _ _); try lra; simpl).
  reflexivity.
Qed.

Lemma split_no_separator (sep : ascii) (s : string) :
  no_char sep s = true -> Str.split sep s = [s].
Proof.
  unfold no_char; induction s as [|c rest IH]; simpl; [reflexivity|].
  intros H; apply andb_true_iff in H as [Hc Hrest]; apply negb_true_iff in Hc.
  rewrite Hc, IH by exact Hrest; reflexivity.
Qed.

Lemma split_at_separator (sep : ascii) (head rest : string) :
  no_char sep head = true ->
  Str.split sep (head ++ String sep rest) = head :: Str.split sep rest.
Proof.
  unfold no_char; induction head as [|c head IH]; simpl.
  - rewrite Ascii.eqb_refl; reflexivity.
  - intros H; apply andb_true_iff in H as [Hc Hhead]; apply negb_true_iff in Hc.
    rewrite Hc, IH by exact Hhead; reflexivity.
Qed.

Lemma set_set_same {V} (d : dict V) (k : string) (v1 v2 : V) :
  set (set d k v1) k v2 = set d k v2.
Proof.
  induction d as [|[k' v'] d IH]; simpl.
  - rewrite String.eqb_refl; reflexivity.
  - destruct (String.eqb k' k) eqn:E; simpl; rewrite E; [reflexivity|].
    rewrite IH; reflexivity.
Qed.

(** X9. An output file is named after the part of the document's name before
    its first underscore (the whole name when it has none); two documents
    that agree on that part are written to the same file, and the second
    write replaces the first. *)
Theorem export_name_is_prefix_before_underscore :
  (forall prefix rest,
      no_char "_" prefix = true ->
      export_name (prefix ++ String "_" rest) = prefix)
  /\ (forall name, no_char "_" name = true -> export_name name = name)
  /\ (forall export_folder weights1 weights2 prefix rest1 rest2,
         no_char "_" prefix = true ->
         export_sorted_counts
           (export_sorted_counts export_folder weights1
              (export_name (prefix ++ String "_" rest1)))
           weights2 (export_name (prefix ++ String "_" rest2))
         = export_sorted_counts export_folder weights2 prefix).
Proof.
  assert (Hprefix : forall prefix rest,
             no_char "_" prefix = true ->
             export_name (prefix ++ String "_" rest) = prefix).
  { intros prefix rest H; unfold export_name.
    rewrite split_at_separator by exact H; reflexivity. }
  split; [exact Hprefix|]; split.
  - intros name H; unfold export_name.
    rewrite split_no_separator by exact H; reflexivity.
  - intros folder w1 w2 prefix rest1 rest2 H.
    rewrite !Hprefix by exact H.
    unfold export_sorted_counts; apply set_set_same.
Qed.

Lemma export_name_is_prefix_before_underscore_witness :
  export_name "doc_1.txt" = "doc"%string
  /\ export_name "doc.txt" = "doc.txt"%string
  /\ export_sorted_counts
       (export_sorted_counts [] [("cat", 1%R)] (export_name "doc_1.txt"))
       [] (export_name "doc_2.txt")
     = [("doc_Sort_by_Term_Weight.wts"%string, [])].
Proof.
  destruct export_name_is_prefix_before_underscore as (Hp & Hn & Hw).
  split; [apply (Hp "doc" "1.txt")%string; reflexivity|].
  split; [apply (Hn "doc.txt"%string); reflexivity|].
  exact (Hw [] [("cat"%string, 1%R)] [] "doc"%string "1.txt"%string
            "2.txt"%string eq_refl).
Defined.

(** ** Where the scoring raises *)

Lemma for_each_raises_after {S X} (body : S -> X -> result S) (e : exn)
      (pre post : list X) (x : X) (s s1 : S) :
  for_each body pre s = Ok s1 ->
  body s1 x = Raise e ->
  for_each body (pre ++ x :: post) s = Raise e.
Proof.
  intros Hpre Hx; rewrite for_each_app, Hpre; simpl; rewrite Hx; reflexivity.
Qed.

Lemma score_document_zero_total (document_frequencies : dict Z)
      (total_documents : Z) (token_counts : dict Z) :
  token_counts <> [] -> sum_values token_counts = 0 ->
  score_document document_frequencies total_documents token_counts
  = Raise ZeroDivisionError.
Proof.
  intros Hne Hsum; unfold score_document; rewrite Hsum.
  destruct token_counts as [|[token count] rest]; [congruence|].
  reflexivity.
Qed.

(** X10. A document that is not empty and whose counts sum to zero (all of
    them zero, or cancelling) ends the computation in [ZeroDivisionError],
    the documents before it having been scored. *)
Theorem zero_total_document_raises (pre post : dict (dict Z))
        (document_frequencies : dict Z) (total_documents : Z)
        (name : string) (token_counts : dict Z) :
  (forall n tc, In (n, tc) pre ->
                exists weights,
                  score_document document_frequencies total_documents tc
                  = Ok weights) ->
  token_counts <> [] -> sum_values token_counts = 0 ->
  calculate_tf_idf (pre ++ (name, token_counts) :: post)
                   document_frequencies total_documents
  = Raise ZeroDivisionError.
Proof.
  intros Hpre Hne Hsum.
  destruct (@calculate_tf_idf_ok document_frequencies total_documents pre Hpre)
    as [out Hout].
  unfold calculate_tf_idf in *.
  apply (for_each_raises_after _ _ _ _ _ Hout).
  rewrite score_document_zero_total by assumption; reflexivity.
Qed.

Lemma zero_total_document_raises_witness :
  calculate_tf_idf [("d_1.txt", [("cat", 3); ("sat", -3)])]
                   [("cat", 1); ("sat", 1)] 1
  = Raise ZeroDivisionError.
Proof.
  apply (@zero_total_document_raises [] [] [("cat", 1); ("sat", 1)] 1
           "d_1.txt" [("cat", 3); ("sat", -3)]).
  - intros n tc [].
  - discriminate.
  - reflexivity.
Defined.

Example zero_counts_only_run :
  main_process_text_files [("d_1.txt", ["cat:0" ++ newline]%string)] [] ""%string
  = Raise ZeroDivisionError.
Proof. reflexivity. Qed.

Lemma idf_of_zero (total_documents : Z) :
  idf total_documents 0 = Raise ZeroDivisionError.
Proof.
  unfold idf, truediv; simpl; destruct (total_documents =? 0); reflexivity.
Qed.

(** X11. A token that has no document frequency (it reads as 0 from the
    counter) ends the scoring of its document in [ZeroDivisionError], once
    the tokens before it have been scored and its own term frequency has been
    computed. *)
Theorem missing_document_frequency_raises (document_frequencies : dict Z)
        (total_documents : Z) (before after : dict Z) (token : string)
        (count : Z) (state : dict R * R) (tf_value : R) :
  let token_counts := before ++ (token, count) :: after in
  for_each (score_token document_frequencies total_documents
                        (sum_values token_counts))
           before ([], 0%R) = Ok state ->
  tf count (sum_values token_counts) = Ok tf_value ->
  counter_get document_frequencies token = 0 ->
  score_document document_frequencies total_documents token_counts
  = Raise ZeroDivisionError.
Proof.
  intros token_counts Hloop Htf Hmissing.
  unfold score_document; fold token_counts.
  unfold token_counts at 2.
  rewrite (for_each_raises_after _ _ _ _ _ Hloop (e := ZeroDivisionError));
    [reflexivity|].
  destruct state as [scores s]; unfold score_token.
  rewrite Htf; simpl.
  rewrite Hmissing, idf_of_zero; reflexivity.
Qed.

Lemma missing_document_frequency_raises_witness :
  score_document [("cat", 1)] 2 [("cat", 3); ("sat", 2)]
  = Raise ZeroDivisionError.
Proof.
  destruct (@score_loop_ok [("cat"%string, 1)] 2 5 [("cat"%string, 3)])
    with (state := (@nil (string * R), 0%R)) as [state Hloop].
  - lia.
  - constructor; [|constructor].
    change (counter_get [("cat"%string, 1)] (fst ("cat"%string, 3))) with 1.
    simpl snd; split; [|split].
    + assert (0 < IZR 3 / IZR 5)%R by (apply IZR_div_pos; lia); lra.
    + lia.
    + apply IZR_div_pos; lia.
  - apply (@missing_document_frequency_raises [("cat", 1)]%string 2
             [("cat", 3)]%string [] "sat"%string 2 state
             (ln (1 + IZR 2 / IZR 5)) Hloop).
    + change (sum_values _) with 5; apply tf_ok; [lia|].
      assert (0 < IZR 2 / IZR 5)%R by (apply IZR_div_pos; lia); lra.
    + reflexivity.
Defined.

(** ** When a run goes through *)

Lemma score_loop_items_ok (document_frequencies : dict Z)
      (total_documents total_terms : Z) (items : dict Z) :
  forall state state',
    for_each (score_token document_frequencies total_documents total_terms)
             items state = Ok state' ->
    Forall (fun item =>
              total_terms <> 0
              /\ (0 < 1 + IZR (snd item) / IZR total_terms)%R) items.
Proof.
  induction items as [|[token count] items IH]; simpl; intros state state' H.
  - constructor.
  - apply bind_ok in H as (state1 & Hstep & Hrest).
    constructor; [|eapply IH; exact Hrest].
    destruct state as [scores s]; unfold score_token in Hstep.
    apply bind_ok in Hstep as (tfv & Htf & _).
    apply tf_inv in Htf as (Hne & Hpos & _); auto.
Qed.

Lemma score_document_scorable (document_frequencies : dict Z)
      (total_documents : Z) (token_counts : dict Z) (weights : dict R) :
  score_document document_frequencies total_documents token_counts = Ok weights ->
  scorable token_counts.
Proof.
  intros H; unfold score_document in H.
  apply bind_ok in H as (state & Hloop & _).
  apply score_loop_items_ok in Hloop.
  destruct token_counts as [|item rest] eqn:E; [left; reflexivity|].
  rewrite <- E in *; right; split.
  - rewrite Forall_forall in Hloop.
    apply (Hloop item); rewrite E; left; reflexivity.
  - unfold values; rewrite Forall_map.
    eapply Forall_impl; [|exact Hloop]; simpl; tauto.
Qed.

Lemma scorable_document_ok (document_frequencies : dict Z)
      (total_documents : Z) (token_counts : dict Z) :
  wf token_counts -> scorable token_counts ->
  Forall (fun token => 0 < counter_get document_frequencies token)
         (keys token_counts) ->
  0 < total_documents ->
  exists weights,
    score_document document_frequencies total_documents token_counts = Ok weights.
Proof.
  intros Hwf [-> | [Hne Hall]] Hdf HN.
  { exists []; apply score_document_empty. }
  destruct (@score_loop_ok document_frequencies total_documents
              (sum_values token_counts) token_counts)
    with (state := (@nil (string * R), 0%R)) as [state Hloop].
  - exact Hne.
  - unfold values in Hall; rewrite Forall_map in Hall.
    unfold keys in Hdf; rewrite Forall_map in Hdf.
    rewrite Forall_forall in *; intros item Hin.
    specialize (Hall item Hin); specialize (Hdf item Hin).
    repeat split; [exact Hall | lia | apply IZR_div_pos; lia].
  - eexists; apply (@score_document_of_loop _ _ _ _ Hwf Hloop).
Qed.

(** With the document frequencies and the number of documents taken from the
    table: a scored table is made of scorable documents, and conversely. *)
Lemma scored_corpus_is_scorable (table : dict (dict Z))
      (document_frequencies : dict Z) (total_documents : Z)
      (out : dict (dict R)) :
  wf table ->
  calculate_tf_idf table document_frequencies total_documents = Ok out ->
  Forall scorable (values table).
Proof.
  intros Hwf Hout.
  apply calculate_tf_idf_inv in Hout; [|exact Hwf].
  rewrite Forall_forall; intros tc Htc.
  apply in_map_iff in Htc as ([name tc'] & Heq & Hin); simpl in Heq; subst tc'.
  destruct (@Forall2_in_l _ _ _ _ _ _ Hout Hin) as (entry & _ & _ & Hscore).
  eapply score_document_scorable; exact Hscore.
Qed.

Lemma scorable_corpus_is_scored (table : dict (dict Z)) :
  wf_table table ->
  Forall scorable (values table) ->
  exists out,
    calculate_tf_idf table (calculate_document_frequencies table)
                     (Z.of_nat (List.length table)) = Ok out.
Proof.
  intros Hwft Hall; apply calculate_tf_idf_ok; intros name tc Hin.
  pose proof (in_map snd _ _ Hin) as Hv; simpl in Hv.
  rewrite Forall_forall in Hall.
  apply scorable_document_ok.
  - eapply wf_table_in; eassumption.
  - apply Hall, Hv.
  - rewrite Forall_forall; intros t Ht.
    pose proof (@document_frequency_positive table name t tc (proj2 Hwft) Hin Ht).
    lia.
  - destruct table; [destruct Hin | simpl List.length; lia].
Qed.

(** A token stored with count 0 (the loader stores it: [cat:0] is a valid
    line) has term frequency 0, which is outside the interval (0, ln 2]; its
    document is scored, and the weight stored for the token is 0. *)
Lemma tf_of_zero_count_is_zero :
  let token_counts := [("cat", 0); ("dog", 5)]%string in
  let table := [("d_1.txt"%string, token_counts)] in
  process_text_file [] ["cat:0" ++ newline; "dog:5" ++ newline]%string
  = Ok token_counts
  /\ In ("cat"%string, 0) token_counts
  /\ tf 0 (sum_values token_counts) = Ok 0%R
  /\ ~ (0 < 0 <= ln 2)%R
  /\ exists out weights,
      calculate_tf_idf table (calculate_document_frequencies table) 1 = Ok out
      /\ get out "d_1.txt" = Some weights
      /\ get weights "cat" = Some 0%R.
Proof.
  intros token_counts table.
  assert (Htf : tf 0 (sum_values token_counts) = Ok 0%R).
  { change (sum_values token_counts) with 5.
    rewrite tf_ok.
    - f_equal; unfold Rdiv; rewrite Rmult_0_l, Rplus_0_r; apply ln_1.
    - lia.
    - unfold Rdiv; rewrite Rmult_0_l; lra. }
  split; [reflexivity|]; split; [left; reflexivity|]; split; [exact Htf|].
  split; [lra|].
  assert (Hwft : wf_table table).
  { unfold wf_table, wf, table, token_counts; simpl.
    repeat constructor; simpl; intuition discriminate. }
  assert (Hall : Forall scorable (values table)).
  { constructor; [|constructor].
    right; split; [discriminate|].
    change (sum_values (snd ("d_1.txt"%string, token_counts))) with 5.
    simpl; repeat constructor; lra. }
  destruct (scorable_corpus_is_scored Hwft Hall) as [out Hout].
  change (Z.of_nat (List.length table)) with 1 in Hout.
  destruct (@scored_token_weight table _ _ out "d_1.txt"%string token_counts
              "cat"%string 0 Hwft Hout)
    as (tfv & idfv & weights & Htfv & _ & Hget & Hweight);
    [left; reflexivity | left; reflexivity |].
  rewrite Htf in Htfv; injection Htfv as <-.
  exists out, weights; split; [exact Hout|]; split; [exact Hget|].
  rewrite Hweight; f_equal; unfold Rdiv; ring.
Qed.

(** X12. On a table with the document frequencies and the number of
    documents computed from it, [calculate_tf_idf] returns when every count
    is at least 1; and whenever it returns, every document is empty or has a
    total other than zero and every [1 + count / total], the argument of the
    logarithm, positive. *)
Theorem scoring_returns_on_positive_counts (table : dict (dict Z)) :
  wf_table table ->
  (Forall (fun token_counts =>
             Forall (fun count => 1 <= count) (values token_counts))
          (values table) ->
   exists out,
     calculate_tf_idf table (calculate_document_frequencies table)
                      (Z.of_nat (List.length table)) = Ok out)
  /\ (forall out,
         calculate_tf_idf table (calculate_document_frequencies table)
                          (Z.of_nat (List.length table)) = Ok out ->
         Forall scorable (values table)).
Proof.
  intros Hwft; split.
  - intros Hcounts; apply corpus_is_scored; assumption.
  - intros out Hout.
    eapply scored_corpus_is_scorable; [exact (proj1 Hwft) | exact Hout].
Qed.

Lemma scoring_returns_on_positive_counts_witness :
  exists out,
    calculate_tf_idf example_table_with_empty
                     (calculate_document_frequencies example_table_with_empty) 2
    = Ok out
    /\ Forall scorable (values example_table_with_empty).
Proof.
  destruct (@scoring_returns_on_positive_counts example_table_with_empty
              example_table_with_empty_wf) as [Hreturns Hscorable].
  destruct Hreturns as [out Hout];
    [unfold example_table_with_empty; forall_entries|].
  exists out; split; [exact Hout | exact (Hscorable out Hout)].
Defined.

Lemma for_each_total {S X} (body : S -> X -> result S) (xs : list X) :
  (forall s x, In x xs -> exists s', body s x = Ok s') ->
  forall s, exists s', for_each body xs s = Ok s'.
Proof.
  induction xs as [|x xs IH]; simpl; intros Hbody s.
  - eexists; reflexivity.
  - destruct (Hbody s x) as [s1 H1]; [left; reflexivity|].
    rewrite H1; simpl; apply IH; intros s0 y Hy; apply Hbody; right; exact Hy.
Qed.


(** The lookups of line 165 find their keys: the export loop goes through. *)
Lemma export_loop_ok (table : dict (dict Z)) (tf_idf_scores : dict (dict R))
      (document_frequencies : dict Z) (total_documents : Z) :
  wf_table table ->
  calculate_tf_idf table document_frequencies total_documents = Ok tf_idf_scores ->
  forall export_folder, exists exported,
    for_each
      (fun exported '(file_name, token_counts) =>
         filtered <- filtered_tf_idf_scores tf_idf_scores file_name token_counts ;;
         Ok (export_sorted_counts exported filtered
               (nth 0 (Str.split "_" file_name) "")))
      table export_folder = Ok exported.
Proof.
  intros Hwft Hcalc; apply for_each_total.
  intros exported [name tc] Hin.
  destruct (@calculate_tf_idf_get _ _ _ _ _ _ (proj1 Hwft) Hcalc Hin)
    as (weights & Hget & Hscore).
  pose proof (wf_table_in _ _ Hwft Hin) as Hwf.
  pose proof (@score_document_keys _ _ _ _ Hwf Hscore) as Hkeys.
  rewrite (@filtered_tf_idf_scores_same _ _ _ weights Hget);
    [eexists; reflexivity | unfold wf; rewrite Hkeys; exact Hwf | exact Hkeys].
Qed.

Lemma scorable_run_completes (import_folder : folder)
      (export_folder : dict weight_file) (stoplist_file : string)
      (table : dict (dict Z)) :
  process_text_files import_folder (load_stoplist stoplist_file) = Ok table ->
  Forall scorable (values table) ->
  exists exported,
    main_process_text_files import_folder export_folder stoplist_file
    = Ok exported.
Proof.
  unfold main_process_text_files; intros Hload Hall; rewrite Hload; simpl.
  pose proof (process_text_files_wf _ _ Hload) as Hwft.
  destruct (scorable_corpus_is_scored Hwft Hall) as [scores Hcalc].
  rewrite Hcalc; simpl.
  eapply export_loop_ok; eassumption.
Qed.

(** X13. A run completes exactly when the loader returns a table and
    [calculate_tf_idf] returns the scores of that table, with the document
    frequencies and the number of documents computed from it: the export
    never fails, each lookup of line 165 finds its key. *)
Theorem run_completes_iff (import_folder : folder)
        (export_folder : dict weight_file) (stoplist_file : string) :
  (exists exported,
      main_process_text_files import_folder export_folder stoplist_file
      = Ok exported)
  <-> exists table tf_idf_scores,
      process_text_files import_folder (load_stoplist stoplist_file) = Ok table
      /\ calculate_tf_idf table (calculate_document_frequencies table)
                          (Z.of_nat (List.length table)) = Ok tf_idf_scores.
Proof.
  unfold main_process_text_files; split.
  - intros [exported H].
    apply bind_ok in H as (table & Hload & H).
    apply bind_ok in H as (scores & Hcalc & _).
    exists table, scores; auto.
  - intros (table & scores & Hload & Hcalc).
    rewrite Hload; simpl; rewrite Hcalc; simpl.
    eapply export_loop_ok; [|exact Hcalc].
    exact (process_text_files_wf _ _ Hload).
Qed.

Lemma run_completes_iff_witness :
  exists exported,
    main_process_text_files
      [("doc_1.txt", ["the:5" ++ newline; "sat:2" ++ newline; "cat:3"]%string);
       ("empty_2.txt", ["the:1"]%string)]
      [] ("the a")%string
    = Ok exported.
Proof.
  set (table := [("doc_1.txt", [("sat", 2); ("cat", 3)]);
                 ("empty_2.txt", [])]%string : dict (dict Z)).
  assert (Hload : process_text_files
                    [("doc_1.txt",
                      ["the:5" ++ newline; "sat:2" ++ newline; "cat:3"]%string);
                     ("empty_2.txt", ["the:1"]%string)]
                    (load_stoplist ("the a")%string) = Ok table)
    by reflexivity.
  destruct (@corpus_is_scored table (process_text_files_wf _ _ Hload))
    as [scores Hcalc]; [unfold table; forall_entries|].
  apply (proj2 (run_completes_iff _ _ _)).
  exists table, scores; split; [exact Hload | exact Hcalc].
Defined.

(** ** The exceptions of a run *)




(** ** The weights *)

Section Weights.

Local Open Scope R_scope.

Lemma square_le_sum_squares (weights : dict R) (k : string) (w : R) :
  In (k, w) weights -> w ^ 2 <= sum_squares weights.
Proof.
  induction weights as [|[k' w'] rest IH]; simpl; intros Hin; [tauto|].
  pose proof (sum_squares_nonneg rest).
  destruct Hin as [Heq|Hin].
  - injection Heq as -> ->; lra.
  - specialize (IH Hin); pose proof (pow2_ge_0 w'); simpl in *; lra.
Qed.

Lemma document_frequency_le (table : dict (dict Z)) (token : string) :
  Forall wf (values table) ->
  (counter_get (calculate_document_frequencies table) token
   <= Z.of_nat (List.length table))%Z.
Proof.
  intros Hall; unfold calculate_document_frequencies.
  rewrite count_documents by exact Hall.
  pose proof (documents_containing_le token table) as Hle.
  unfold documents_containing in Hle.
  change (counter_get [] token) with 0%Z; lia.
Qed.

(** An inverse document frequency is positive when the token is held by at
    least one and at most all of the documents. *)
Lemma idf_value_pos (total_documents df_token : Z) :
  (0 < df_token <= total_documents)%Z ->
  0 < (if (total_documents =? df_token)%Z
       then ln (IZR total_documents / IZR df_token) + 1
       else ln (IZR total_documents / IZR df_token)).
Proof.
  intros [Hpos Hle].
  destruct (Z.eqb_spec total_documents df_token) as [-> | Hne].
  - rewrite IZR_div_same by lia; rewrite ln_1; lra.
  - rewrite <- ln_1; apply ln_increasing; [lra|].
    assert (Hd : 0 < IZR df_token) by (apply IZR_lt; lia).
    assert (Hlt : IZR df_token < IZR total_documents) by (apply IZR_lt; lia).
    apply Rmult_lt_reg_r with (r := IZR df_token); [exact Hd|].
    unfold Rdiv; rewrite Rmult_assoc, Rinv_l by lra; lra.
Qed.

Lemma weight_of_item (document_frequencies : dict Z) (total_documents : Z)
      (token_counts : dict Z) (weights : dict R) (token : string) (w : R) :
  wf token_counts ->
  score_document document_frequencies total_documents token_counts = Ok weights ->
  In (token, w) weights ->
  exists count,
    In (token, count) token_counts
    /\ 0 < sqrt (sum_squares
                   (raw_scores document_frequencies total_documents token_counts))
    /\ w = raw_score document_frequencies total_documents
                     (sum_values token_counts) (token, count)
           / sqrt (sum_squares
                     (raw_scores document_frequencies total_documents token_counts)).
Proof.
  intros Hwf Hscore Hin.
  destruct (@score_document_inv _ _ _ _ Hwf Hscore) as (Hw & Hpos & _).
  rewrite Hw in Hin.
  apply in_map_iff in Hin as ([t r] & Heq & Hin); simpl in Heq.
  injection Heq as -> <-.
  unfold raw_scores in Hin.
  apply in_map_iff in Hin as ([t' c] & Heq & Hin).
  unfold scored_item in Heq; simpl in Heq; injection Heq as -> <-.
  exists c; split; [exact Hin|]; split; [|reflexivity].
  apply sqrt_lt_R0, Hpos; intros ->; destruct Hin.
Qed.

End Weights.

(** X15. Every weight that is returned lies between -1 and 1. *)
Theorem weights_are_at_most_one (table : dict (dict Z))
        (document_frequencies : dict Z) (total_documents : Z)
        (out : dict (dict R)) (name token : string) (weights : dict R) (w : R) :
  wf_table table ->
  calculate_tf_idf table document_frequencies total_documents = Ok out ->
  get out name = Some weights ->
  In (token, w) weights ->
  (-1 <= w <= 1)%R.
Proof.
  intros Hwft Hcalc Hget Hin.
  destruct (@calculate_tf_idf_get_inv _ _ _ _ _ _ (proj1 Hwft) Hcalc Hget)
    as (tc & Htc & Hscore).
  pose proof (wf_table_in _ _ Hwft Htc) as Hwf.
  destruct (@score_document_inv _ _ _ _ Hwf Hscore) as (Hw & Hpos & _).
  assert (Hne : tc <> []) by (intros ->; rewrite Hw in Hin; destruct Hin).
  assert (Hnorm : l2_norm weights = 1%R).
  { rewrite Hw; apply l2_norm_normalized; [apply Hpos, Hne | reflexivity]. }
  assert (Hsum : sum_squares weights = 1%R).
  { unfold l2_norm in Hnorm.
    rewrite <- (sqrt_sqrt (sum_squares weights)) by apply sum_squares_nonneg.
    rewrite Hnorm; ring. }
  pose proof (square_le_sum_squares _ _ _ Hin) as Hsq.
  rewrite Hsum in Hsq; simpl in Hsq; nra.
Qed.

Lemma example_table_entry :
  exists out w_cat w_sat,
    calculate_tf_idf example_table
                     (calculate_document_frequencies example_table) 1 = Ok out
    /\ get out "doc_1.txt" = Some [("cat"%string, w_cat); ("sat"%string, w_sat)].
Proof.
  destruct example_table_scored as [out Hout].
  pose proof example_table_wf as Hwft.
  assert (Hin : In ("doc_1.txt"%string, [("cat"%string, 3); ("sat"%string, 2)])
                   example_table) by (left; reflexivity).
  destruct (@calculate_tf_idf_get _ _ _ _ _ _ (proj1 Hwft) Hout Hin)
    as (weights & Hget & Hscore).
  destruct (@score_document_inv _ _ _ _ (wf_table_in _ _ Hwft Hin) Hscore)
    as (Hw & _ & _).
  unfold raw_scores in Hw; simpl map in Hw.
  exists out; eexists _, _; split; [exact Hout|].
  rewrite Hget, Hw; reflexivity.
Qed.

Lemma weights_are_at_most_one_witness :
  exists w : R, (-1 <= w <= 1)%R.
Proof.
  destruct example_table_entry as (out & w_cat & w_sat & Hout & Hget).
  exists w_cat.
  apply (@weights_are_at_most_one _ _ _ _ _ "cat"%string _ _
           example_table_wf Hout Hget).
  left; reflexivity.
Defined.

(** X16. When no count is negative and the document frequencies and the
    number of documents are computed from the table, no weight is
    negative. *)
Theorem weights_are_nonnegative (table : dict (dict Z)) (out : dict (dict R))
        (name token : string) (weights : dict R) (w : R) :
  wf_table table ->
  Forall (fun token_counts => Forall (fun count => 0 <= count) (values token_counts))
         (values table) ->
  calculate_tf_idf table (calculate_document_frequencies table)
                   (Z.of_nat (List.length table)) = Ok out ->
  get out name = Some weights ->
  In (token, w) weights ->
  (0 <= w)%R.
Proof.
  intros Hwft Hcounts Hcalc Hget Hin.
  destruct (@calculate_tf_idf_get_inv _ _ _ _ _ _ (proj1 Hwft) Hcalc Hget)
    as (tc & Htc & Hscore).
  pose proof (wf_table_in _ _ Hwft Htc) as Hwf.
  destruct (@weight_of_item _ _ _ _ _ _ Hwf Hscore Hin)
    as (count & Hitem & Hnorm & ->).
  apply Rmult_le_pos; [|left; apply Rinv_0_lt_compat; exact Hnorm].
  rewrite Forall_forall in Hcounts.
  specialize (Hcounts tc (in_map snd _ _ Htc)); simpl in Hcounts.
  pose proof (@sum_values_nonneg _ Hcounts) as Htotal.
  rewrite Forall_forall in Hcounts.
  specialize (Hcounts count (in_map snd _ _ Hitem)); simpl in Hcounts.
  apply score_document_scorable in Hscore.
  destruct Hscore as [-> | [Hne _]]; [destruct Hitem|].
  unfold raw_score; simpl fst; simpl snd.
  apply Rmult_le_pos.
  - rewrite <- ln_1; apply ln_le_compat; [lra|].
    assert (0 <= IZR count / IZR (sum_values tc))%R; [|lra].
    apply Rmult_le_pos; [apply IZR_le; exact Hcounts|].
    left; apply Rinv_0_lt_compat, IZR_lt; lia.
  - left; apply idf_value_pos; split.
    + pose proof (@document_frequency_positive table name token tc
                    (proj2 Hwft) Htc (in_map fst _ _ Hitem)); lia.
    + apply document_frequency_le; exact (proj2 Hwft).
Qed.

Lemma weights_are_nonnegative_witness :
  exists w : R, (0 <= w)%R.
Proof.
  destruct example_table_entry as (out & w_cat & w_sat & Hout & Hget).
  exists w_sat.
  apply (@weights_are_nonnegative example_table out "doc_1.txt"%string
           "sat"%string [("cat"%string, w_cat); ("sat"%string, w_sat)] w_sat
           example_table_wf).
  - unfold example_table; forall_entries.
  - exact Hout.
  - exact Hget.
  - right; left; reflexivity.
Defined.





(** ** The shape of the inverse document frequency *)

Section IdfShape.

Local Open Scope R_scope.

Lemma ln_2_lt_1 : ln 2 < 1.
Proof.
  rewrite <- (ln_exp 1); apply ln_increasing; [lra|].
  pose proof (exp_ineq1 1 ltac:(lra)); lra.
Qed.

End IdfShape.

(** X18. Of two inverse document frequencies that have been computed, for
    document frequencies below the number of documents, the one of the
    larger document frequency is the smaller or equal one, and neither is
    negative; but a token held by every document gets 1, which is more than
    what a token held by at least half of the documents, and not all, gets. *)
Theorem idf_decreases_then_jumps (total_documents : Z) :
  (forall df1 df2 v1 v2,
      0 < df1 -> df1 <= df2 -> df2 < total_documents ->
      idf total_documents df1 = Ok v1 -> idf total_documents df2 = Ok v2 ->
      (0 <= v2 <= v1)%R)
  /\ (forall df_token,
         0 < df_token -> df_token < total_documents ->
         total_documents <= 2 * df_token ->
         exists v,
           idf total_documents df_token = Ok v
           /\ idf total_documents total_documents = Ok 1%R
           /\ (0 <= v < 1)%R).
Proof.
  assert (Hone : forall d, 0 < d -> d < total_documents ->
                           (1 < IZR total_documents / IZR d)%R).
  { intros d Hd HdN.
    apply Rmult_lt_reg_r with (r := IZR d); [apply IZR_lt; lia|].
    unfold Rdiv; rewrite Rmult_assoc, Rinv_l, Rmult_1_r, Rmult_1_l;
      [apply IZR_lt; lia|].
    apply Rgt_not_eq, IZR_lt; lia. }
  split.
  - intros df1 df2 v1 v2 H1 H12 H2N Hv1 Hv2.
    apply idf_inv in Hv1 as (_ & _ & ->).
    apply idf_inv in Hv2 as (_ & _ & ->).
    destruct (Z.eqb_spec total_documents df1); [lia|].
    destruct (Z.eqb_spec total_documents df2); [lia|].
    pose proof (Hone df2 ltac:(lia) H2N) as Hq.
    split.
    + rewrite <- ln_1; apply ln_le_compat; lra.
    + apply ln_le_compat; [lra|].
      apply Rmult_le_compat_l; [apply IZR_le; lia|].
      apply Rinv_le_contravar; [apply IZR_lt; lia | apply IZR_le; lia].
  - intros d Hd HdN Hhalf.
    rewrite (@idf_ok total_documents d), (@idf_ok total_documents total_documents);
      try lia; try (apply IZR_div_pos; lia).
    rewrite Z.eqb_refl.
    destruct (Z.eqb_spec total_documents d); [lia|].
    eexists; split; [reflexivity|]; split; [|split].
    + f_equal; rewrite IZR_div_same by lia; rewrite ln_1; lra.
    + pose proof (Hone d Hd HdN) as Hq.
      rewrite <- ln_1; apply ln_le_compat; lra.
    + apply Rle_lt_trans with (r2 := ln 2); [|exact ln_2_lt_1].
      apply ln_le_compat; [apply IZR_div_pos; lia|].
      apply Rmult_le_reg_r with (r := IZR d); [apply IZR_lt; lia|].
      unfold Rdiv; rewrite Rmult_assoc, Rinv_l, Rmult_1_r;
        [rewrite <- mult_IZR; apply IZR_le; lia|].
      apply Rgt_not_eq, IZR_lt; lia.
Qed.

Lemma idf_decreases_then_jumps_witness :
  (forall v1 v2, idf 10 2 = Ok v1 -> idf 10 5 = Ok v2 -> (0 <= v2 <= v1)%R)
  /\ (exists v, idf 10 5 = Ok v /\ idf 10 10 = Ok 1%R /\ (0 <= v < 1)%R).
Proof.
  destruct (idf_decreases_then_jumps 10) as [Hdec Hjump].
  split.
  - intros v1 v2; apply (Hdec 2 5 v1 v2); lia.
  - apply (Hjump 5); lia.
Defined.

(** ** The keys of the document frequencies *)

Lemma count_one_document_keys (tokens : list string) (x : string) :
  forall df,
    In x (keys (fold_left (fun df token => counter_add df token 1) tokens df))
    <-> In x (keys df) \/ In x tokens.
Proof.
  induction tokens as [|t tokens IH]; simpl; intros df; [tauto|].
  rewrite IH; unfold counter_add; rewrite keys_set_in.
  split; intros H; intuition auto.
Qed.

Lemma count_documents_keys (docs : list (dict Z)) (x : string) :
  forall df,
    In x (keys (fold_left
                  (fun document_frequencies token_counts =>
                     fold_left (fun df token => counter_add df token 1)
                               (keys token_counts) document_frequencies)
                  docs df))
    <-> In x (keys df) \/ exists tc, In tc docs /\ In x (keys tc).
Proof.
  induction docs as [|tc docs IH]; simpl; intros df.
  - split; [auto | intros [H|(tc & [] & _)]; exact H].
  - rewrite IH, count_one_document_keys; split.
    + intros [[H|H]|(tc' & Hin & Hx)]; auto.
      * right; exists tc; auto.
      * right; exists tc'; auto.
    + intros [H|(tc' & [<-|Hin] & Hx)]; auto.
      right; exists tc'; auto.
Qed.

Lemma count_documents_wf (docs : list (dict Z)) :
  forall df, wf df ->
    wf (fold_left
          (fun document_frequencies token_counts =>
             fold_left (fun df token => counter_add df token 1)
                       (keys token_counts) document_frequencies)
          docs df).
Proof.
  induction docs as [|tc docs IH]; simpl; intros df Hwf; [exact Hwf|].
  apply IH; generalize (keys tc) as tokens; intros tokens.
  revert df Hwf; induction tokens as [|t tokens IHt]; simpl; intros df Hwf;
    [exact Hwf|].
  apply IHt; unfold counter_add; apply wf_set; exact Hwf.
Qed.

(** X19. The document frequencies have one entry per token that is a key of
    some document, and no other: a token of no document has no entry. *)
Theorem document_frequencies_cover_the_vocabulary (table : dict (dict Z))
        (token : string) :
  wf (calculate_document_frequencies table)
  /\ (In token (keys (calculate_document_frequencies table))
      <-> exists name token_counts,
          In (name, token_counts) table /\ In token (keys token_counts))
  /\ ((forall name token_counts,
          In (name, token_counts) table -> ~ In token (keys token_counts)) ->
      get (calculate_document_frequencies table) token = None).
Proof.
  assert (Hiff : In token (keys (calculate_document_frequencies table))
                 <-> exists name token_counts,
                     In (name, token_counts) table /\ In token (keys token_counts)).
  { unfold calculate_document_frequencies; rewrite count_documents_keys; split.
    - intros [[]|(tc & Hin & Hx)].
      apply in_map_iff in Hin as ([name tc'] & Heq & Hin); simpl in Heq; subst.
      exists name, tc; auto.
    - intros (name & tc & Hin & Hx); right; exists tc; split; [|exact Hx].
      apply (in_map snd) in Hin; exact Hin. }
  split; [|split; [exact Hiff|]].
  - unfold calculate_document_frequencies; apply count_documents_wf; constructor.
  - intros Hnone; apply get_none; rewrite Hiff.
    intros (name & tc & Hin & Hx); exact (Hnone name tc Hin Hx).
Qed.

Lemma document_frequencies_cover_the_vocabulary_witness :
  get (calculate_document_frequencies example_table) "dog" = None.
Proof.
  apply (@document_frequencies_cover_the_vocabulary example_table "dog"%string).
  intros name tc [Heq|[]]; injection Heq as <- <-; simpl.
  intuition discriminate.
Defined.

Example format_int_examples :
  map Tokenize.format_int [0; 7; 10; 305; -42; 1000000]
  = ["0"; "7"; "10"; "305"; "-42"; "1000000"]%string.
Proof. reflexivity. Qed.

Example replace_examples :
  map (Tokenize.replace ".html" "") ["doc.html"; "a.html.html"; "plain"; "x.htm"]%string
  = ["doc"; "a"; "plain"; "x.htm"]%string.
Proof. reflexivity. Qed.

Example sort_word_counts_example :
  Tokenize.sort_word_counts (Tokenize.counter_of ["the"; "cat"; "sat"; "the"; "bat"]%string)
  = ([("bat", 1); ("cat", 1); ("sat", 1); ("the", 2)]%string,
     [("the", 2); ("bat", 1); ("cat", 1); ("sat", 1)]%string).
Proof. reflexivity. Qed.

(** ** Numbers written and read back *)

Ltac each_char c :=
  destruct c as [[] [] [] [] [] [] [] []]; try discriminate; try reflexivity.

Lemma string_forall_impl (p q : ascii -> bool) (s : string) :
  (forall c, p c = true -> q c = true) ->
  string_forall p s = true -> string_forall q s = true.
Proof.
  intros Hpq; induction s as [|c rest IH]; simpl; [reflexivity|].
  intros H; apply andb_true_iff in H as [Hc Hrest].
  rewrite (Hpq c Hc), IH by exact Hrest; reflexivity.
Qed.

Lemma string_forall_app (p : ascii -> bool) (s t : string) :
  string_forall p (s ++ t) = string_forall p s && string_forall p t.
Proof.
  induction s as [|c rest IH]; simpl; [reflexivity|].
  rewrite IH, andb_assoc; reflexivity.
Qed.

Lemma digit_char_spec (d : Z) :
  0 <= d < 10 ->
  Str.is_digit (Tokenize.digit_char d) = true
  /\ Str.digit_value (Tokenize.digit_char d) = d.
Proof.
  intros H.
  assert (Hd : d = 0 \/ d = 1 \/ d = 2 \/ d = 3 \/ d = 4 \/ d = 5 \/ d = 6
               \/ d = 7 \/ d = 8 \/ d = 9) by lia.
  repeat (destruct Hd as [-> | Hd]; [split; reflexivity|]).
  subst; split; reflexivity.
Qed.

Lemma scan_digit (c : ascii) (rest : string) (acc : Z) (ndigits : nat) :
  Str.is_digit c = true ->
  Str.scan_digits (String c rest) false acc ndigits
  = Str.scan_digits rest false (10 * acc + Str.digit_value c) (S ndigits).
Proof. intros H; cbn [Str.scan_digits]; rewrite H; reflexivity. Qed.

Lemma log2_tenth (n : Z) : 10 <= n -> Z.log2 (n / 10) + 1 <= Z.log2 n.
Proof.
  intros Hn.
  assert (Hm : 0 < n / 10) by (apply Z.div_str_pos; lia).
  rewrite Z.add_1_r, <- Z.log2_double by exact Hm.
  apply Z.log2_le_mono.
  pose proof (Z.mul_div_le n 10 ltac:(lia)); lia.
Qed.

(** Scanning the digits written for [n] reads [n]. *)
Lemma scan_digits_of (fuel : nat) :
  forall n suffix ndigits,
    0 <= n -> Z.log2 n <= Z.of_nat fuel ->
    exists ndigits',
      Str.scan_digits (Tokenize.digits_of fuel n suffix) false 0 ndigits
      = Str.scan_digits suffix false n (S ndigits').
Proof.
  induction fuel as [|fuel IH]; intros n suffix ndigits Hn Hlog.
  - assert (Hsmall : n < 10).
    { destruct (Z_lt_le_dec n 10) as [H|H]; [exact H|].
      pose proof (log2_tenth H); pose proof (Z.log2_nonneg (n / 10)); lia. }
    cbn [Tokenize.digits_of]; rewrite Z.mod_small by lia.
    destruct (digit_char_spec (conj Hn Hsmall)) as [Hd Hv].
    rewrite scan_digit by exact Hd; rewrite Hv.
    exists ndigits; f_equal; lia.
  - cbn [Tokenize.digits_of]; destruct (Z.ltb_spec n 10) as [Hsmall|Hbig].
    + rewrite Z.mod_small by lia.
      destruct (digit_char_spec (conj Hn Hsmall)) as [Hd Hv].
      rewrite scan_digit by exact Hd; rewrite Hv.
      exists ndigits; f_equal; lia.
    + destruct (IH (n / 10)
                   (String (Tokenize.digit_char (n mod 10)) suffix) ndigits)
        as [nd Hscan].
      * apply Z.div_pos; lia.
      * pose proof (log2_tenth Hbig); lia.
      * rewrite Hscan.
        destruct (digit_char_spec (Z.mod_pos_bound n 10 ltac:(lia))) as [Hd Hv].
        rewrite scan_digit by exact Hd; rewrite Hv.
        exists (S nd); f_equal.
        pose proof (Z.div_mod n 10 ltac:(lia)); lia.
Qed.

Lemma digits_of_chars (fuel : nat) :
  forall n acc,
    0 <= n -> string_forall Str.is_digit acc = true ->
    exists c rest,
      Tokenize.digits_of fuel n acc = String c rest
      /\ string_forall Str.is_digit (String c rest) = true.
Proof.
  induction fuel as [|fuel IH]; intros n acc Hn Hacc; cbn [Tokenize.digits_of].
  - destruct (digit_char_spec (Z.mod_pos_bound n 10 ltac:(lia))) as [Hd _].
    eexists _, _; split; [reflexivity|].
    cbn [string_forall]; rewrite Hd, Hacc; reflexivity.
  - destruct (digit_char_spec (Z.mod_pos_bound n 10 ltac:(lia))) as [Hd _].
    destruct (n <? 10).
    + eexists _, _; split; [reflexivity|].
      cbn [string_forall]; rewrite Hd, Hacc; reflexivity.
    + apply IH; [apply Z.div_pos; lia|].
      cbn [string_forall]; rewrite Hd, Hacc; reflexivity.
Qed.

Lemma to_ascii_digits (s : string) :
  string_forall Str.is_digit s = true -> Str.to_ascii s = s.
Proof.
  induction s as [|c rest IH]; simpl; [reflexivity|].
  intros H; apply andb_true_iff in H as [Hc Hrest].
  rewrite IH by exact Hrest; f_equal.
  revert Hc; each_char c.
Qed.

Lemma int_of_digits (c : ascii) (rest : string) :
  Str.is_digit c = true ->
  Str.int (String c rest)
  = match Str.scan_digits (String c (Str.to_ascii rest)) false 0 0 with
    | None => Raise ValueError
    | Some (v, unread) =>
        match Str.skip_c_space unread with
        | EmptyString => Ok v
        | String _ _ => Raise ValueError
        end
    end.
Proof. each_char c. Qed.

Lemma int_of_minus_digits (c : ascii) (rest : string) :
  Str.is_digit c = true ->
  Str.int (String "-" (String c rest))
  = match Str.scan_digits (String c (Str.to_ascii rest)) false 0 0 with
    | None => Raise ValueError
    | Some (v, unread) =>
        match Str.skip_c_space unread with
        | EmptyString => Ok (- v)
        | String _ _ => Raise ValueError
        end
    end.
Proof. each_char c. Qed.

Lemma int_digits_of (n : Z) :
  0 <= n ->
  exists c rest,
    Tokenize.digits_of (Z.to_nat (Z.log2 n)) n EmptyString = String c rest
    /\ string_forall Str.is_digit (String c rest) = true
    /\ Str.scan_digits (String c (Str.to_ascii rest)) false 0 0
       = Some (n, EmptyString).
Proof.
  intros Hn.
  destruct (@digits_of_chars (Z.to_nat (Z.log2 n)) n EmptyString Hn eq_refl)
    as (c & rest & Heq & Hdigits).
  exists c, rest; split; [exact Heq|]; split; [exact Hdigits|].
  pose proof (to_ascii_digits _ Hdigits) as Hascii; simpl in Hascii.
  injection Hascii as _ Hrest; rewrite Hrest, <- Heq.
  destruct (@scan_digits_of (Z.to_nat (Z.log2 n)) n EmptyString 0%nat Hn)
    as [nd Hscan].
  - pose proof (Z.log2_nonneg n); lia.
  - rewrite Hscan; reflexivity.
Qed.

Lemma int_of_written_natural (n : Z) :
  0 <= n ->
  Str.int (Tokenize.digits_of (Z.to_nat (Z.log2 n)) n EmptyString) = Ok n.
Proof.
  intros Hn.
  destruct (@int_digits_of n Hn) as (c & rest & -> & Hd & Hscan).
  simpl in Hd; apply andb_true_iff in Hd as [Hc _].
  rewrite int_of_digits by exact Hc.
  rewrite Hscan; reflexivity.
Qed.

Lemma int_of_written_negative (n : Z) :
  0 <= n ->
  Str.int (String "-" (Tokenize.digits_of (Z.to_nat (Z.log2 n)) n EmptyString))
  = Ok (- n).
Proof.
  intros Hn.
  destruct (@int_digits_of n Hn) as (c & rest & -> & Hd & Hscan).
  simpl in Hd; apply andb_true_iff in Hd as [Hc _].
  rewrite int_of_minus_digits by exact Hc.
  rewrite Hscan; reflexivity.
Qed.

Lemma int_of_format_int (n : Z) : Str.int (Tokenize.format_int n) = Ok n.
Proof.
  unfold Tokenize.format_int; destruct (Z.ltb_spec n 0) as [Hneg|Hpos].
  - rewrite int_of_written_negative by lia; f_equal; lia.
  - apply int_of_written_natural; exact Hpos.
Qed.

(** X20. A number written in decimal is read back by [int] as the same
    number. *)
Theorem int_reads_back_written_number (n : Z) :
  Str.int (Tokenize.format_int n) = Ok n.
Proof.
  unfold Tokenize.format_int; destruct (Z.ltb_spec n 0) as [Hneg|Hpos].
  - rewrite int_of_written_negative by lia; f_equal; lia.
  - apply int_of_written_natural; exact Hpos.
Qed.

(** ** Frequency lines written and read back *)

Lemma int_char_no_space (c : ascii) :
  int_char c = true -> negb (Str.is_space c) = true.
Proof. each_char c. Qed.

Lemma int_char_no_colon (c : ascii) :
  int_char c = true -> negb (Ascii.eqb c ":") = true.
Proof. each_char c. Qed.

Lemma digit_is_int_char (c : ascii) : Str.is_digit c = true -> int_char c = true.
Proof. unfold int_char; intros ->; reflexivity. Qed.

Lemma format_int_chars (n : Z) :
  Tokenize.format_int n <> EmptyString
  /\ string_forall int_char (Tokenize.format_int n) = true.
Proof.
  unfold Tokenize.format_int; destruct (n <? 0) eqn:E.
  - apply Z.ltb_lt in E.
    destruct (@digits_of_chars (Z.to_nat (Z.log2 (- n))) (- n) EmptyString
                ltac:(lia) eq_refl) as (c & rest & -> & Hd).
    split; [discriminate|].
    change (int_char "-" && string_forall int_char (String c rest) = true).
    apply andb_true_iff; split; [reflexivity|].
    eapply string_forall_impl; [exact digit_is_int_char | exact Hd].
  - apply Z.ltb_ge in E.
    destruct (@digits_of_chars (Z.to_nat (Z.log2 n)) n EmptyString E eq_refl)
      as (c & rest & -> & Hd).
    split; [discriminate|].
    eapply string_forall_impl; [exact digit_is_int_char | exact Hd].
Qed.

Lemma string_app_assoc (s t u : string) :
  ((s ++ t) ++ u)%string = (s ++ (t ++ u))%string.
Proof. induction s as [|c s IH]; simpl; [|rewrite IH]; reflexivity. Qed.

Lemma rstrip_clean (t : string) : no_space t = true -> Str.rstrip t = t.
Proof.
  unfold no_space; induction t as [|c rest IH]; simpl; [reflexivity|].
  intros H; apply andb_true_iff in H as [Hc Hrest]; apply negb_true_iff in Hc.
  rewrite IH by exact Hrest; destruct rest; [rewrite Hc|]; reflexivity.
Qed.

Lemma rstrip_app_clean (s t : string) :
  t <> EmptyString -> no_space t = true -> Str.rstrip (s ++ t) = (s ++ t)%string.
Proof.
  intros Hne Ht; induction s as [|c rest IH]; simpl.
  - apply rstrip_clean; exact Ht.
  - rewrite IH; destruct (rest ++ t)%string eqn:E; [|reflexivity].
    destruct rest; simpl in E; [congruence | discriminate].
Qed.

Lemma rstrip_app_space (s : string) (c : ascii) :
  Str.is_space c = true ->
  Str.rstrip (s ++ String c EmptyString) = Str.rstrip s.
Proof.
  intros Hc; induction s as [|a rest IH]; simpl.
  - rewrite Hc; reflexivity.
  - rewrite IH; reflexivity.
Qed.

Lemma lstrip_clean_app (token rest : string) (c : ascii) :
  no_space token = true -> Str.is_space c = false ->
  Str.lstrip (token ++ String c rest) = (token ++ String c rest)%string.
Proof.
  unfold no_space; intros Ht Hc; destruct token as [|a token]; simpl.
  - rewrite Hc; reflexivity.
  - simpl in Ht; apply andb_true_iff in Ht as [Ha _]; apply negb_true_iff in Ha.
    rewrite Ha; reflexivity.
Qed.

Lemma strip_clean (t : string) : no_space t = true -> Str.strip t = t.
Proof.
  intros Ht; unfold Str.strip.
  assert (Hl : Str.lstrip t = t).
  { destruct t as [|a t]; [reflexivity|].
    unfold no_space in Ht; simpl in Ht.
    apply andb_true_iff in Ht as [Ha _]; apply negb_true_iff in Ha.
    simpl; rewrite Ha; reflexivity. }
  rewrite Hl; apply rstrip_clean; exact Ht.
Qed.

Lemma no_space_format_int (n : Z) : no_space (Tokenize.format_int n) = true.
Proof.
  unfold no_space; eapply string_forall_impl;
    [exact int_char_no_space | apply format_int_chars].
Qed.

(** The parts of a written line are the token and the number. *)
Lemma line_parts_frequency_line (token : string) (count : Z) :
  clean_token token = true ->
  line_parts (Tokenize.frequency_line (token, count))
  = [token; String " " (Tokenize.format_int count)].
Proof.
  unfold clean_token; intros H; apply andb_true_iff in H as [Hspace Hcolon].
  destruct (format_int_chars count) as [Hne Hchars].
  pose proof (no_space_format_int count) as Hns.
  unfold line_parts, Tokenize.frequency_line, Str.strip; simpl fst; simpl snd.
  change (": " ++ Tokenize.format_int count ++ newline)%string
    with (String ":" (String " " (Tokenize.format_int count ++ newline))).
  rewrite lstrip_clean_app by (exact Hspace || reflexivity).
  assert (Hsplit : (token ++ String ":" (String " " (Tokenize.format_int count ++ newline)))%string
                   = ((token ++ String ":" (String " " (Tokenize.format_int count)))
                        ++ newline)%string).
  { rewrite string_app_assoc; reflexivity. }
  rewrite Hsplit; unfold newline; rewrite rstrip_app_space by reflexivity.
  change (token ++ String ":" (String " " (Tokenize.format_int count)))%string
    with (token ++ (String ":" (String " " EmptyString)
                      ++ Tokenize.format_int count))%string.
  rewrite <- string_app_assoc, rstrip_app_clean by assumption.
  rewrite string_app_assoc.
  change (String ":" (String " " EmptyString) ++ Tokenize.format_int count)%string
    with (String ":" (String " " (Tokenize.format_int count))).
  rewrite split_at_separator by exact Hcolon.
  rewrite split_no_separator; [reflexivity|].
  unfold no_char; cbn [string_forall]; apply andb_true_iff; split; [reflexivity|].
  eapply string_forall_impl; [exact int_char_no_colon | exact Hchars].
Qed.

Lemma process_frequency_line (excluded_tokens : list string) (tc : dict Z)
      (token : string) (count : Z) :
  clean_token token = true ->
  process_line excluded_tokens tc (Tokenize.frequency_line (token, count))
  = Ok (if kept_by_loader excluded_tokens (token, count)
        then counter_add tc token count else tc).
Proof.
  intros Hclean.
  rewrite process_line_unfold
    by (rewrite line_parts_frequency_line by exact Hclean; reflexivity).
  rewrite line_parts_frequency_line by exact Hclean.
  cbn [nth].
  assert (Hnum : Str.strip (String " " (Tokenize.format_int count))
                 = Tokenize.format_int count).
  { unfold Str.strip; cbn [Str.lstrip].
    change (Str.is_space " ") with true; cbv iota.
    apply (strip_clean _ (no_space_format_int count)). }
  rewrite Hnum, int_of_format_int; simpl Py.bind.
  unfold clean_token in Hclean; apply andb_true_iff in Hclean as [Hspace _].
  rewrite strip_clean by exact Hspace.
  unfold kept_by_loader; simpl fst.
  destruct (negb (in_set token excluded_tokens) && _); reflexivity.
Qed.

Lemma counter_add_absent (tc : dict Z) (token : string) (count : Z) :
  ~ In token (keys tc) -> counter_add tc token count = tc ++ [(token, count)].
Proof.
  intros Hnew; unfold counter_add, counter_get.
  rewrite (proj2 (get_none tc token) Hnew), set_absent by exact Hnew.
  reflexivity.
Qed.

Lemma load_frequency_lines (excluded_tokens : list string)
      (rows : list (string * Z)) :
  Forall (fun row => clean_token (fst row) = true) rows ->
  forall acc,
    NoDup (keys acc ++ map fst rows) ->
    for_each (process_line excluded_tokens)
             (map Tokenize.frequency_line rows) acc
    = Ok (acc ++ filter (kept_by_loader excluded_tokens) rows).
Proof.
  induction 1 as [|[token count] rows Hclean _ IH]; intros acc Hnd; simpl.
  - rewrite app_nil_r; reflexivity.
  - simpl in Hclean; rewrite process_frequency_line by exact Hclean; simpl Py.bind.
    destruct (kept_by_loader excluded_tokens (token, count)).
    + assert (Hnew : ~ In token (keys acc)).
      { intros Hin; apply NoDup_remove_2 in Hnd; apply Hnd.
        apply in_or_app; left; exact Hin. }
      rewrite counter_add_absent by exact Hnew.
      rewrite IH.
      * rewrite <- app_assoc; reflexivity.
      * unfold keys; rewrite map_app; simpl.
        apply NoDup_app_swap_cons; exact Hnd.
    + apply IH; apply NoDup_remove_1 in Hnd; exact Hnd.
Qed.

Lemma load_frequency_lines_file (excluded_tokens : list string)
      (rows : list (string * Z)) :
  NoDup (map fst rows) ->
  Forall (fun row => clean_token (fst row) = true) rows ->
  process_text_file excluded_tokens (map Tokenize.frequency_line rows)
  = Ok (filter (kept_by_loader excluded_tokens) rows).
Proof.
  intros Hnd Hclean; unfold process_text_file.
  rewrite load_frequency_lines by assumption; reflexivity.
Qed.

(** X21. A file of lines [token: count], one per token, the tokens without
    whitespace or colon, is loaded as the list of its entries in the order
    of the lines, less the stop words and the tokens of one character. *)
Theorem frequency_lines_are_read_back (excluded_tokens : list string)
        (rows : list (string * Z)) :
  NoDup (map fst rows) ->
  Forall (fun row => clean_token (fst row) = true) rows ->
  process_text_file excluded_tokens (map Tokenize.frequency_line rows)
  = Ok (filter (kept_by_loader excluded_tokens) rows).
Proof.
  intros Hnd Hclean; unfold process_text_file.
  rewrite load_frequency_lines by assumption; reflexivity.
Qed.

Lemma frequency_lines_are_read_back_witness :
  process_text_file ["the"]%string
    (map Tokenize.frequency_line [("the", 12); ("cat", 3); ("x", 7); ("sat", -2)]%string)
  = Ok [("cat", 3); ("sat", -2)]%string.
Proof.
  apply (@frequency_lines_are_read_back ["the"]%string
           [("the", 12); ("cat", 3); ("x", 7); ("sat", -2)]%string).
  - simpl; repeat constructor; simpl; intuition discriminate.
  - repeat constructor.
Defined.

(** ** The counters of the tokenizer *)

Lemma counter_of_from (tokens : list string) (x : string) :
  forall acc,
    counter_get (fold_left (fun counts token => counter_add counts token 1)
                           tokens acc) x
    = counter_get acc x + Z.of_nat (count_occ string_dec tokens x).
Proof.
  induction tokens as [|t tokens IH]; intros acc; simpl; [lia|].
  rewrite IH, counter_get_add.
  destruct (string_dec t x) as [-> | Hne].
  - rewrite String.eqb_refl; lia.
  - apply String.eqb_neq in Hne; rewrite Hne; lia.
Qed.

Lemma counter_of_wf (tokens : list string) : wf (Tokenize.counter_of tokens).
Proof.
  unfold Tokenize.counter_of.
  assert (H : wf (@nil (string * Z))) by constructor.
  revert H; generalize (@nil (string * Z)) as acc.
  induction tokens as [|t tokens IH]; intros acc Hacc; simpl; [exact Hacc|].
  apply IH; unfold counter_add; apply wf_set; exact Hacc.
Qed.

Lemma counter_of_keys (tokens : list string) (x : string) :
  In x (keys (Tokenize.counter_of tokens)) <-> In x tokens.
Proof.
  unfold Tokenize.counter_of; rewrite count_one_document_keys; simpl; tauto.
Qed.

Lemma counter_of_positive (tokens : list string) :
  Forall (fun count => 1 <= count) (values (Tokenize.counter_of tokens)).
Proof.
  unfold values; rewrite Forall_map, Forall_forall; intros [t c] Hin; simpl.
  pose proof (get_in _ _ (counter_of_wf tokens) Hin) as Hget.
  assert (Hc : counter_get (Tokenize.counter_of tokens) t = c)
    by (unfold counter_get; rewrite Hget; reflexivity).
  unfold Tokenize.counter_of in Hc; rewrite counter_of_from in Hc.
  change (counter_get [] t) with 0 in Hc.
  assert (Ht : In t tokens)
    by (apply (proj1 (counter_of_keys tokens t));
        apply (in_map fst) in Hin; exact Hin).
  apply (count_occ_In string_dec) in Ht; lia.
Qed.

(** X22. [Counter(tokens)] gives each token the number of its occurrences in
    the list; its keys are the tokens of the list, and every count is at
    least 1. *)
Theorem counter_counts_occurrences (tokens : list string) (token : string) :
  counter_get (Tokenize.counter_of tokens) token
  = Z.of_nat (count_occ string_dec tokens token)
  /\ (In token (keys (Tokenize.counter_of tokens)) <-> In token tokens)
  /\ Forall (fun count => 1 <= count) (values (Tokenize.counter_of tokens)).
Proof.
  split; [|split].
  - unfold Tokenize.counter_of; rewrite counter_of_from; reflexivity.
  - apply counter_of_keys.
  - apply counter_of_positive.
Qed.

Lemma counter_counts_occurrences_witness :
  counter_get (Tokenize.counter_of ["the"; "cat"; "the"]%string) "the" = 2.
Proof.
  apply (proj1 (counter_counts_occurrences ["the"; "cat"; "the"]%string "the"%string)).
Defined.

(** ** The two sorts of the tokenizer *)

Section TokenizerSorts.

Local Abbreviation token_le :=
  (fun a b : string * Z => String.leb (fst a) (fst b) = true).
Local Abbreviation count_ge := (fun a b : string * Z => snd b <= snd a).

Lemma insert_by_token_perm (x : string * Z) (l : list (string * Z)) :
  Permutation (x :: l) (Tokenize.insert_by_token x l).
Proof.
  induction l as [|y rest IH]; simpl; [reflexivity|].
  destruct (String.ltb (fst y) (fst x)); [|reflexivity].
  rewrite perm_swap; constructor; exact IH.
Qed.

Lemma insert_by_count_perm (x : string * Z) (l : list (string * Z)) :
  Permutation (x :: l) (Tokenize.insert_by_count x l).
Proof.
  induction l as [|y rest IH]; simpl; [reflexivity|].
  destruct (snd x <? snd y); [|reflexivity].
  rewrite perm_swap; constructor; exact IH.
Qed.

Lemma ltb_leb (a b : string) : String.ltb a b = true -> String.leb a b = true.
Proof.
  unfold String.ltb, String.leb; destruct (String.compare a b); intros H;
    first [reflexivity | discriminate].
Qed.

Lemma not_ltb_leb (a b : string) : String.ltb a b = false -> String.leb b a = true.
Proof.
  unfold String.ltb, String.leb; rewrite (String.compare_antisym a b).
  destruct (String.compare b a); simpl; intros H;
    first [reflexivity | discriminate].
Qed.

Lemma insert_by_token_sorted (x : string * Z) (l : list (string * Z)) :
  Sorted token_le l -> Sorted token_le (Tokenize.insert_by_token x l).
Proof.
  induction 1 as [|y rest Hrest IH Hy]; simpl.
  - repeat constructor.
  - destruct (String.ltb (fst y) (fst x)) eqn:E.
    + constructor; [exact IH|].
      destruct rest as [|z rest']; simpl.
      * constructor; apply ltb_leb; exact E.
      * destruct (String.ltb (fst z) (fst x)).
        -- constructor; inversion Hy; assumption.
        -- constructor; apply ltb_leb; exact E.
    + constructor; [constructor; assumption|].
      constructor; apply not_ltb_leb; exact E.
Qed.

Lemma insert_by_count_in (x y : string * Z) (l : list (string * Z)) :
  In y (Tokenize.insert_by_count x l) -> y = x \/ In y l.
Proof.
  intros Hin.
  apply (Permutation_in _ (Permutation_sym (insert_by_count_perm x l))) in Hin.
  destruct Hin as [<-|Hin]; auto.
Qed.

Lemma insert_by_count_sorted (x : string * Z) (l : list (string * Z)) :
  StronglySorted count_ge l -> StronglySorted count_ge (Tokenize.insert_by_count x l).
Proof.
  induction 1 as [|y rest Hrest IH Hy]; simpl.
  - repeat constructor.
  - destruct (Z.ltb_spec (snd x) (snd y)) as [Hlt|Hge].
    + constructor; [exact IH|].
      rewrite Forall_forall in *; intros z Hz.
      apply insert_by_count_in in Hz as [-> | Hz]; [lia | apply Hy, Hz].
    + constructor; [constructor; assumption|].
      constructor; [lia|].
      rewrite Forall_forall in *; intros z Hz; specialize (Hy z Hz); simpl in *; lia.
Qed.

Lemma insert_by_count_filter (n : Z) (x : string * Z) (l : list (string * Z)) :
  filter (fun entry => snd entry =? n) (Tokenize.insert_by_count x l)
  = filter (fun entry => snd entry =? n) (x :: l).
Proof.
  induction l as [|y rest IH]; [reflexivity|].
  simpl Tokenize.insert_by_count.
  destruct (Z.ltb_spec (snd x) (snd y)) as [Hlt|Hge]; [|reflexivity].
  simpl in *; rewrite IH.
  destruct (Z.eqb_spec (snd x) n), (Z.eqb_spec (snd y) n); try reflexivity; lia.
Qed.

End TokenizerSorts.

Lemma sort_by_token_perm (l : list (string * Z)) :
  Permutation l (fold_right Tokenize.insert_by_token [] l).
Proof.
  induction l as [|x rest IH]; simpl; [constructor|].
  rewrite <- insert_by_token_perm; constructor; exact IH.
Qed.

Lemma sort_by_token_sorted (l : list (string * Z)) :
  Sorted (fun a b => String.leb (fst a) (fst b) = true)
         (fold_right Tokenize.insert_by_token [] l).
Proof.
  induction l as [|x rest IH]; simpl; [constructor|].
  apply insert_by_token_sorted; exact IH.
Qed.

Lemma sort_by_count_perm (l : list (string * Z)) :
  Permutation l (fold_right Tokenize.insert_by_count [] l).
Proof.
  induction l as [|x rest IH]; simpl; [constructor|].
  rewrite <- insert_by_count_perm; constructor; exact IH.
Qed.

Lemma sort_by_count_sorted (l : list (string * Z)) :
  StronglySorted (fun a b => snd b <= snd a)
                 (fold_right Tokenize.insert_by_count [] l).
Proof.
  induction l as [|x rest IH]; simpl; [constructor|].
  apply insert_by_count_sorted; exact IH.
Qed.

Lemma sort_by_count_stable (l : list (string * Z)) (n : Z) :
  filter (fun entry => snd entry =? n) (fold_right Tokenize.insert_by_count [] l)
  = filter (fun entry => snd entry =? n) l.
Proof.
  induction l as [|x rest IH]; [reflexivity|].
  simpl fold_right; rewrite insert_by_count_filter.
  simpl; rewrite IH; reflexivity.
Qed.

Lemma sort_word_counts_perm (token_counts : dict Z) :
  Permutation token_counts (snd (Tokenize.sort_word_counts token_counts)).
Proof.
  unfold Tokenize.sort_word_counts; simpl snd.
  rewrite <- sort_by_count_perm; apply sort_by_token_perm.
Qed.

(** X23. The list by token is the entries of the counter in ascending order
    of the tokens; the list by count is the same entries in order of
    non-increasing count, and the entries of one count come in it in the
    order of the tokens. *)
Theorem sort_word_counts_orders (token_counts : dict Z) :
  let sorted_by_token := fst (Tokenize.sort_word_counts token_counts) in
  let sorted_by_count := snd (Tokenize.sort_word_counts token_counts) in
  Permutation token_counts sorted_by_token
  /\ Sorted (fun a b => String.leb (fst a) (fst b) = true) sorted_by_token
  /\ Permutation token_counts sorted_by_count
  /\ StronglySorted (fun a b => snd b <= snd a) sorted_by_count
  /\ (forall n,
         filter (fun entry => snd entry =? n) sorted_by_count
         = filter (fun entry => snd entry =? n) sorted_by_token).
Proof.
  simpl; split; [apply sort_by_token_perm|].
  split; [apply sort_by_token_sorted|].
  split; [apply sort_word_counts_perm|].
  split; [apply sort_by_count_sorted | intros n; apply sort_by_count_stable].
Qed.

Example ties_come_in_token_order :
  snd (Tokenize.sort_word_counts [("sat", 1); ("the", 2); ("cat", 1)]%string)
  = [("the", 2); ("cat", 1); ("sat", 1)]%string.
Proof. reflexivity. Qed.

(** ** The combined counts *)

Lemma counter_get_cons (k token : string) (c : Z) (rest : dict Z) :
  counter_get ((k, c) :: rest) token
  = if String.eqb k token then c else counter_get rest token.
Proof. unfold counter_get; simpl; destruct (String.eqb k token); reflexivity. Qed.

Lemma counter_update_get (counts other : dict Z) (token : string) :
  wf other ->
  counter_get (Tokenize.counter_update counts other) token
  = counter_get counts token + counter_get other token.
Proof.
  unfold Tokenize.counter_update, wf; revert counts.
  induction other as [|[k c] rest IH]; intros counts Hnd; simpl.
  - change (counter_get [] token) with 0; lia.
  - inversion Hnd as [|? ? Hnot Hnd']; subst.
    rewrite IH by exact Hnd'; rewrite counter_get_add, counter_get_cons.
    destruct (String.eqb k token) eqn:E; [|reflexivity].
    apply String.eqb_eq in E; subst k.
    assert (Hz : counter_get rest token = 0).
    { unfold counter_get; rewrite (proj2 (get_none rest token) Hnot); reflexivity. }
    lia.
Qed.

Lemma process_html_file_counts (strip_tags : string -> list string)
      (state : dict Z * dict text_file) (name content token : string) :
  counter_get (fst (Tokenize.process_html_file strip_tags state name content)) token
  = counter_get (fst state) token
    + Z.of_nat (count_occ string_dec (strip_tags content) token).
Proof.
  destruct state as [counts exported]; unfold Tokenize.process_html_file.
  destruct (Tokenize.sort_word_counts _) as [by_token by_count]; simpl fst.
  rewrite counter_update_get by apply counter_of_wf.
  unfold Tokenize.counter_of; rewrite counter_of_from; reflexivity.
Qed.

(** X24. After all the files, the combined counter gives each token the
    number of its occurrences in the token lists of the files whose name ends
    in [.html]. *)
Theorem combined_counts_are_totals (strip_tags : string -> list string)
        (import_folder : list (string * string))
        (export_folder : dict text_file) (token : string) :
  counter_get
    (fst (Tokenize.process_html_files strip_tags import_folder ([], export_folder)))
    token
  = occurrences_in_folder strip_tags import_folder token.
Proof.
  unfold Tokenize.process_html_files.
  assert (H : forall state,
             counter_get
               (fst (fold_left
                       (fun state '(import_file_name, html_content) =>
                          if Str.endswith import_file_name ".html"
                          then Tokenize.process_html_file strip_tags state
                                 import_file_name html_content
                          else state)
                       import_folder state)) token
             = counter_get (fst state) token
               + occurrences_in_folder strip_tags import_folder token).
  { induction import_folder as [|[name content] rest IH]; intros state; simpl.
    - lia.
    - rewrite IH; destruct (Str.endswith name ".html"); [|reflexivity].
      rewrite process_html_file_counts; lia. }
  rewrite H; reflexivity.
Qed.

Example combined_counts_example :
  counter_get
    (fst (Tokenize.process_html_files split_whitespace
            [("a.html", "the cat the"); ("b.txt", "the"); ("c.html", "cat the")]%string
            ([], [])))
    "the"
  = 3.
Proof. reflexivity. Qed.

(** ** From the tokenizer to the weights *)

Lemma positive_counts_scorable (token_counts : dict Z) :
  Forall (fun count => 1 <= count) (values token_counts) ->
  scorable token_counts.
Proof.
  intros Hpos; destruct token_counts as [|[k c] rest] eqn:E; [left; reflexivity|].
  rewrite <- E in *; right.
  assert (Hnonneg : Forall (fun n => 0 <= n) (values token_counts)).
  { eapply Forall_impl; [|exact Hpos]; simpl; intros; lia. }
  assert (Hin : In (k, c) token_counts) by (rewrite E; left; reflexivity).
  pose proof (@count_le_sum_values _ _ _ Hnonneg Hin) as Hle.
  rewrite Forall_forall in Hpos.
  pose proof (Hpos c (in_map snd _ _ Hin)) as Hc; simpl in Hc.
  split; [lia|].
  rewrite Forall_forall; intros n Hn; specialize (Hpos n Hn).
  assert (0 < IZR n / IZR (sum_values token_counts))%R
    by (apply IZR_div_pos; lia).
  lra.
Qed.

Lemma positive_counter_get (counts : dict Z) (token : string) :
  wf counts -> Forall (fun count => 1 <= count) (values counts) ->
  0 <= counter_get counts token
  /\ (In token (keys counts) -> 1 <= counter_get counts token).
Proof.
  intros Hwf Hpos; unfold counter_get.
  destruct (get counts token) as [n|] eqn:E.
  - apply get_some_in in E; rewrite Forall_forall in Hpos.
    specialize (Hpos n (in_map snd _ _ E)); simpl in Hpos; split; [lia|auto].
  - split; [lia|]; intros Hin; apply get_none in E; contradiction.
Qed.

Lemma counter_update_wf (counts other : dict Z) :
  wf counts -> wf (Tokenize.counter_update counts other).
Proof.
  unfold Tokenize.counter_update; revert counts.
  induction other as [|[k c] rest IH]; intros counts Hwf; simpl; [exact Hwf|].
  apply IH; unfold counter_add; apply wf_set; exact Hwf.
Qed.

Lemma counter_update_keys (counts other : dict Z) (x : string) :
  In x (keys (Tokenize.counter_update counts other))
  <-> In x (keys counts) \/ In x (keys other).
Proof.
  unfold Tokenize.counter_update; revert counts.
  induction other as [|[k c] rest IH]; intros counts; simpl; [tauto|].
  rewrite IH; unfold counter_add; rewrite keys_set_in.
  split; intros H; intuition auto.
Qed.

Lemma counter_update_positive (counts other : dict Z) :
  wf counts -> Forall (fun count => 1 <= count) (values counts) ->
  wf other -> Forall (fun count => 1 <= count) (values other) ->
  Forall (fun count => 1 <= count)
         (values (Tokenize.counter_update counts other)).
Proof.
  intros Hwf Hpos Hwf' Hpos'.
  pose proof (counter_update_wf other Hwf) as Hwfu.
  unfold values; rewrite Forall_map, Forall_forall; intros [k v] Hin; simpl.
  pose proof (get_in _ _ Hwfu Hin) as Hget.
  assert (Hv : counter_get (Tokenize.counter_update counts other) k = v)
    by (unfold counter_get; rewrite Hget; reflexivity).
  rewrite counter_update_get in Hv by exact Hwf'.
  destruct (positive_counter_get k Hwf Hpos) as [H0 H1].
  destruct (positive_counter_get k Hwf' Hpos') as [H0' H1'].
  apply (in_map fst) in Hin; simpl in Hin.
  apply (proj1 (counter_update_keys _ _ _)) in Hin as [Hk|Hk];
    [specialize (H1 Hk) | specialize (H1' Hk)]; lia.
Qed.

(** The file written for a counter of clean tokens and positive counts. *)
Lemma written_counter_is_frequency_file (token_counts : dict Z) :
  wf token_counts ->
  Forall (fun token => clean_token token = true) (keys token_counts) ->
  Forall (fun count => 1 <= count) (values token_counts) ->
  frequency_file
    (map Tokenize.frequency_line (snd (Tokenize.sort_word_counts token_counts))).
Proof.
  intros Hwf Hclean Hpos.
  pose proof (sort_word_counts_perm token_counts) as Hperm.
  exists (snd (Tokenize.sort_word_counts token_counts)).
  split; [reflexivity|]; split.
  - eapply Permutation_NoDup; [apply Permutation_map; exact Hperm | exact Hwf].
  - eapply Permutation_Forall; [exact Hperm|].
    unfold keys in Hclean; unfold values in Hpos.
    rewrite Forall_map in Hclean, Hpos.
    rewrite Forall_forall in *; intros row Hrow; auto.
Qed.

Lemma process_html_files_invariant (strip_tags : string -> list string)
      (import_folder : list (string * string)) :
  (forall content,
      Forall (fun token => clean_token token = true) (strip_tags content)) ->
  forall counts exported,
    wf counts ->
    Forall (fun token => clean_token token = true) (keys counts) ->
    Forall (fun count => 1 <= count) (values counts) ->
    Forall frequency_file (values exported) ->
    let state := Tokenize.process_html_files strip_tags import_folder
                                             (counts, exported) in
    wf (fst state)
    /\ Forall (fun token => clean_token token = true) (keys (fst state))
    /\ Forall (fun count => 1 <= count) (values (fst state))
    /\ Forall frequency_file (values (snd state)).
Proof.
  intros Hstrip; unfold Tokenize.process_html_files.
  induction import_folder as [|[name content] rest IH];
    intros counts exported Hwf Hclean Hpos Hfiles; simpl; [auto|].
  destruct (Str.endswith name ".html"); [|apply IH; assumption].
  unfold Tokenize.process_html_file.
  destruct (Tokenize.sort_word_counts (Tokenize.counter_of (strip_tags content)))
    as [by_token by_count] eqn:Esort.
  assert (Hkeys : Forall (fun token => clean_token token = true)
                         (keys (Tokenize.counter_of (strip_tags content)))).
  { rewrite Forall_forall; intros t Ht.
    apply (proj1 (counter_of_keys _ _)) in Ht.
    pose proof (Hstrip content) as Hc; rewrite Forall_forall in Hc.
    apply Hc, Ht. }
  apply IH.
  - apply counter_update_wf; exact Hwf.
  - rewrite Forall_forall; intros t Ht.
    apply (proj1 (counter_update_keys _ _ _)) in Ht as [Ht|Ht];
      [rewrite Forall_forall in Hclean | rewrite Forall_forall in Hkeys]; auto.
  - apply counter_update_positive;
      [assumption | assumption | apply counter_of_wf | apply counter_of_positive].
  - unfold Tokenize.export_sorted_counts.
    apply values_set_Forall; [exact Hfiles|].
    replace by_count
      with (snd (Tokenize.sort_word_counts (Tokenize.counter_of (strip_tags content))))
      by (rewrite Esort; reflexivity).
    apply written_counter_is_frequency_file;
      [apply counter_of_wf | exact Hkeys | apply counter_of_positive].
Qed.

Lemma tokenizer_writes_frequency_files (strip_tags : string -> list string)
      (import_folder : list (string * string)) (export_folder : dict text_file) :
  (forall content,
      Forall (fun token => clean_token token = true) (strip_tags content)) ->
  Forall frequency_file (values export_folder) ->
  Forall frequency_file
         (values (Tokenize.main strip_tags import_folder export_folder)).
Proof.
  intros Hstrip Hfiles; unfold Tokenize.main.
  pose proof (@process_html_files_invariant strip_tags import_folder Hstrip
                [] export_folder ltac:(constructor) ltac:(constructor)
                ltac:(constructor) Hfiles) as Hinv.
  cbv zeta in Hinv.
  match goal with
  | |- context [Tokenize.process_html_files strip_tags import_folder ?st] =>
      change (Tokenize.process_html_files strip_tags import_folder _)
        with (Tokenize.process_html_files strip_tags import_folder st) in Hinv;
      destruct (Tokenize.process_html_files strip_tags import_folder st)
        as [counts exported]
  end.
  simpl in Hinv; destruct Hinv as (Hwf & Hclean & Hpos & Hout).
  unfold Tokenize.export_combined_counts.
  destruct (Tokenize.sort_word_counts counts) as [by_token by_count] eqn:Esort.
  apply values_set_Forall; [exact Hout|].
  replace by_count with (snd (Tokenize.sort_word_counts counts))
    by (rewrite Esort; reflexivity).
  apply written_counter_is_frequency_file; assumption.
Qed.

Lemma load_frequency_files (import_folder : folder)
      (excluded_tokens : list string) :
  Forall frequency_file (values import_folder) ->
  exists table,
    process_text_files import_folder excluded_tokens = Ok table
    /\ Forall (fun token_counts =>
                 Forall (fun count => 1 <= count) (values token_counts))
              (values table).
Proof.
  unfold process_text_files.
  assert (Hacc : Forall (fun token_counts : dict Z =>
                           Forall (fun count => 1 <= count) (values token_counts))
                        (values (@nil (string * dict Z)))) by constructor.
  revert Hacc; generalize (@nil (string * dict Z)) as acc.
  induction import_folder as [|[name file] rest IH]; intros acc Hacc Hfiles; simpl.
  - exists acc; auto.
  - inversion Hfiles as [|? ? Hfile Hrest]; subst.
    destruct (negb (Str.endswith name ".txt")); simpl; [apply IH; assumption|].
    destruct Hfile as (rows & -> & Hnd & Hrows).
    rewrite load_frequency_lines_file; [simpl|exact Hnd|].
    + apply IH; [|exact Hrest].
      apply values_set_Forall; [exact Hacc|].
      unfold values; rewrite Forall_map, Forall_forall; intros row Hrow.
      apply filter_In in Hrow as [Hrow _].
      rewrite Forall_forall in Hrows; apply Hrows, Hrow.
    + eapply Forall_impl; [|exact Hrows]; simpl; tauto.
Qed.

(** X25. Whatever the HTML files are, when the tokens have no whitespace and
    no colon in them, the run of the weights over the folder the tokenizer
    has written completes: every file is loaded and every document scored. *)
Theorem tokenizer_output_is_weighted (strip_tags : string -> list string)
        (html_folder : list (string * string))
        (export_folder : dict weight_file) (stoplist_file : string) :
  (forall content,
      Forall (fun token => clean_token token = true) (strip_tags content)) ->
  exists exported,
    main_process_text_files (Tokenize.main strip_tags html_folder [])
                            export_folder stoplist_file
    = Ok exported.
Proof.
  intros Hstrip.
  destruct (@load_frequency_files
              (Tokenize.main strip_tags html_folder [])
              (load_stoplist stoplist_file))
    as (table & Hload & Hpos).
  - apply tokenizer_writes_frequency_files; [exact Hstrip | constructor].
  - apply (scorable_run_completes _ _ _ Hload).
    eapply Forall_impl; [|exact Hpos].
    intros tc; apply positive_counts_scorable.
Qed.

Lemma tokenizer_output_is_weighted_witness :
  exists exported,
    main_process_text_files
      (Tokenize.main (fun content => filter clean_token (split_whitespace content))
                     [("a.html", "the cat sat the"); ("b.html", "cat a:b")]%string [])
      [] "the"%string
    = Ok exported.
Proof.
  apply (@tokenizer_output_is_weighted
           (fun content => filter clean_token (split_whitespace content))).
  intros content; rewrite Forall_forall; intros t Ht.
  apply filter_In in Ht as [_ Ht]; exact Ht.
Defined.
